(** * route-to-art: the validators, the duration formatter, the option
    merge and the commands of the command-line interface

    A shallow embedding of [src/cli/route_to_art/main.py].  Python integers
    are [Z], Python floats are the kernel's binary64 floats, [Optional[T]] is
    [option T], lists are lists, and [set(...)] is a [gset].  Code that reads
    the route object runs in a small state-and-exception monad whose state is
    the route itself, so that "never raises" and "never mutates" are statements
    about the embedded code and not about the host logic. *)

From Stdlib Require Import ZArith List String Ascii Bool Lia.
From Stdlib Require Import DecimalString Sorted.
From Stdlib Require Import Floats.
From Stdlib Require Import Reals Lra.
From stdpp Require Import base numbers list gmap.
Import ListNotations.

Local Open Scope Z_scope.

(** ** Python values *)

(** [len(xs)] *)
Definition len {A} (xs : list A) : Z := Z.of_nat (length xs).

(** [str(n)] for an integer, as an f-string renders [{n}]. *)
Definition str_int (n : Z) : string := NilZero.string_of_int (Z.to_int n).

(** [enumerate(xs)]: the items paired with their positions 0, 1, 2, ... *)
Fixpoint enumerate_from {A} (start : Z) (xs : list A) : list (Z * A) :=
  match xs with
  | [] => []
  | x :: xs' => (start, x) :: enumerate_from (start + 1) xs'
  end.

Definition enumerate {A} (xs : list A) : list (Z * A) := enumerate_from 0 xs.

(** [range(lo, hi)] *)
Definition range (lo hi : Z) : list Z :=
  map (fun k => lo + Z.of_nat k) (seq 0 (Z.to_nat (hi - lo))).

(** ** The route model

    [route_to_art.models] is imported by [main.py]; the validators read
    exactly the attributes below. *)

(** Modelled from the spec: [datetime] is declared outside [main.py].  A
    timestamp is an instant on one time line, counted in microseconds (the
    resolution of [datetime]); instants are ordered and hashed by that count.
    A [datetime] object is always truthy, so [if p.timestamp] tests for
    [None] only. *)
Definition datetime := Z.

(** Modelled from the spec: the [GeoPoint] of [route_to_art.models], section 3
    of the specification: latitude and longitude in degrees (double
    precision), optional elevation in metres, optional timestamp. *)
Record GeoPoint := mkGeoPoint {
  latitude : float;
  longitude : float;
  elevation : option float;
  timestamp : option datetime
}.

(** Modelled from the spec: a segment is the ordered sequence of its points. *)
Record Segment := mkSegment {
  points : list GeoPoint
}.

(** Modelled from the spec: a route is an optional name and the ordered
    sequence of its segments. *)
Record Route := mkRoute {
  name : option string;
  segments : list Segment
}.

(** ** Exceptions, and the monad the validators run in *)

(** Instances of [Exception]: a class and the message [str(e)] renders. *)
Inductive exn_class :=
| IndexError
| AttributeError
| RenderingError
| OtherException (class_name : string).

Record exn := Exception {
  exn_class_of : exn_class;
  exn_message : string
}.

(** [str(e)] *)
Definition str_exn (e : exn) : string := exn_message e.

Inductive result (A : Type) :=
| Ok (a : A)
| Raise (e : exn).
Arguments Ok {A} a.
Arguments Raise {A} e.

(** A computation over the route object: it may read the route, replace it,
    or raise. *)
Definition M (A : Type) : Type := Route -> result (A * Route).

Definition ret {A} (a : A) : M A := fun r => Ok (a, r).

Definition bind {A B} (m : M A) (k : A -> M B) : M B :=
  fun r => match m r with
           | Ok (a, r') => k a r'
           | Raise e => Raise e
           end.

Definition raise {A} (e : exn) : M A := fun _ => Raise e.

(** The attribute read [route.segments]. *)
Definition get_segments : M (list Segment) := fun r => Ok (segments r, r).

(** The store operation the monad offers for an attribute assignment
    [route.segments = segs]; no validator calls it. *)
Definition set_segments (segs : list Segment) : M unit :=
  fun r => Ok (tt, mkRoute (name r) segs).

Declare Scope py_scope.
Delimit Scope py_scope with py.
Notation "'let*' x ':=' m 'in' k" := (bind m (fun x => k))
  (at level 10, x name, m at level 100, k at level 200) : py_scope.

(** [xs[j]] on a list, with Python's negative positions. *)
Definition getitem {A} (xs : list A) (j : Z) : M A :=
  let k := if j <? 0 then j + len xs else j in
  if (0 <=? k) && (k <? len xs) then
    match nth_error xs (Z.to_nat k) with
    | Some x => ret x
    | None => raise (Exception IndexError "list index out of range")
    end
  else raise (Exception IndexError "list index out of range").

(** [for item in items: acc = body(item, acc)] *)
Fixpoint for_each {A S} (items : list A) (body : A -> S -> M S) (acc : S) : M S :=
  match items with
  | [] => ret acc
  | x :: items' => (let* acc' := body x acc in for_each items' body acc')%py
  end.

(** [issues.append(msg)] on the local list [issues]. *)
Definition append (issues : list string) (msg : string) : list string :=
  issues ++ [msg].

(** ** [validate_segments] *)

Definition msg_no_segments : string := "Route has no segments".

Definition msg_no_points (i : Z) : string :=
  ("Segment " ++ str_int (i + 1) ++ " has no points")%string.

Definition msg_one_point (i : Z) : string :=
  ("Segment " ++ str_int (i + 1) ++ " has only one point - no route data")%string.

Definition msg_many_points (i : Z) (n : Z) : string :=
  ("Segment " ++ str_int (i + 1) ++ " has " ++ str_int n ++ " points, "
   ++ "which may cause performance issues")%string.

Definition validate_segments_body (item : Z * Segment) (issues : list string)
  : M (list string) :=
  let '(i, segment) := item in
  match points segment with
  | [] => ret (append issues (msg_no_points i))          (* continue *)
  | _ :: _ =>
      let issues :=
        if len (points segment) <? 2
        then append issues (msg_one_point i) else issues in
      let issues :=
        if 10000 <? len (points segment)
        then append issues (msg_many_points i (len (points segment)))
        else issues in
      ret issues
  end.

Definition validate_segments : M (list string) :=
  (let* segs := get_segments in
   match segs with
   | [] => ret (append [] msg_no_segments)
   | _ :: _ => for_each (enumerate segs) validate_segments_body []
   end)%py.

(** ** [validate_coordinates] *)

Section Coordinates.

(** [str(x)] for a float, as an f-string renders [{x}] (the shortest
    decimal that reads back as [x]).  The validators only splice it into a
    message, so it is left as a parameter. *)
Variable str_float : float -> string.

Definition msg_extreme_latitude (i j : Z) (lat : float) : string :=
  ("Point " ++ str_int (j + 1) ++ " in segment " ++ str_int (i + 1)
   ++ " has extreme latitude (" ++ str_float lat ++ ")"
   ++ " which may cause issues with map projections")%string.

Definition validate_coordinates_point (i : Z) (item : Z * GeoPoint)
    (issues : list string) : M (list string) :=
  let '(j, point) := item in
  if (85 <? abs (latitude point))%float
  then ret (append issues (msg_extreme_latitude i j (latitude point)))
  else ret issues.

Definition validate_coordinates_body (item : Z * Segment) (issues : list string)
  : M (list string) :=
  let '(i, segment) := item in
  for_each (enumerate (points segment)) (validate_coordinates_point i) issues.

Definition validate_coordinates : M (list string) :=
  (let* segs := get_segments in
   for_each (enumerate segs) validate_coordinates_body [])%py.

End Coordinates.

(** ** [validate_timestamps] *)

(** Truthiness of [p.timestamp], and the test [p.timestamp is None]. *)
Definition has_timestamp (p : GeoPoint) : bool :=
  match timestamp p with Some _ => true | None => false end.

Definition timestamp_is_none (p : GeoPoint) : bool :=
  match timestamp p with Some _ => false | None => true end.

Definition msg_inconsistent (i : Z) : string :=
  ("Segment " ++ str_int (i + 1) ++ " has inconsistent timestamps "
   ++ "(some points missing timestamp data)")%string.

Definition msg_out_of_order (i : Z) : string :=
  ("Segment " ++ str_int (i + 1) ++ " has out-of-order timestamps")%string.

Definition msg_duplicate (i : Z) : string :=
  ("Segment " ++ str_int (i + 1) ++ " has duplicate timestamps")%string.

(** The loop [for j in range(1, len(pts))] that sets [timestamp_issues] and
    breaks at the first pair [pts[j-1], pts[j]] whose timestamps are both
    present and decrease.  The result is the final value of the flag. *)
Fixpoint timestamp_order_loop (pts : list GeoPoint) (js : list Z) : M bool :=
  match js with
  | [] => ret false
  | j :: js' =>
      (let* pj := getitem pts j in
       let* pj1 := getitem pts (j - 1) in
       match timestamp pj, timestamp pj1 with
       | Some curr, Some prev =>
           if curr <? prev then ret true                  (* break *)
           else timestamp_order_loop pts js'
       | _, _ => timestamp_order_loop pts js'
       end)%py
  end.

Definition validate_timestamps_body (item : Z * Segment) (issues : list string)
  : M (list string) :=
  let '(i, segment) := item in
  let has_timestamps := existsb has_timestamp (points segment) in
  if negb has_timestamps then ret issues                   (* continue *)
  else
    let missing_timestamps := existsb timestamp_is_none (points segment) in
    let issues :=
      if missing_timestamps then append issues (msg_inconsistent i) else issues in
    (let* timestamp_issues :=
       timestamp_order_loop (points segment) (range 1 (len (points segment))) in
     let issues :=
       if timestamp_issues : bool then append issues (msg_out_of_order i) else issues in
     (* [p.timestamp for p in segment.points if p.timestamp] *)
     let timestamps := omap timestamp (points segment) in
     let unique_timestamps : gset datetime := list_to_set timestamps in
     let issues :=
       if Z.of_nat (size unique_timestamps) <? len timestamps
       then append issues (msg_duplicate i) else issues in
     ret issues)%py.

Definition validate_timestamps : M (list string) :=
  (let* segs := get_segments in
   for_each (enumerate segs) validate_timestamps_body [])%py.

(** ** [format_duration] *)

(** A [datetime.timedelta] in its normal form: any number of days,
    [0 <= seconds < 86400] and [0 <= microseconds < 1000000]. *)
Record timedelta := mkTimedelta {
  days : Z;
  seconds : Z;
  microseconds : Z
}.

(** [bool(d)]: a [timedelta] is falsy exactly when it equals [timedelta(0)]. *)
Definition timedelta_truthy (d : timedelta) : bool :=
  negb ((days d =? 0) && (seconds d =? 0) && (microseconds d =? 0)).

(** [bool(n)] for an integer. *)
Definition int_truthy (n : Z) : bool := negb (n =? 0).

(** [divmod(a, b)]: floor division and its remainder. *)
Definition divmod (a b : Z) : Z * Z := (a / b, a mod b).

(** ['s' if n != 1 else ''] *)
Definition plural (n : Z) : string := if negb (n =? 1) then "s" else "".

(** [sep.join(parts)] *)
Definition join (sep : string) (parts : list string) : string :=
  String.concat sep parts.

Definition format_duration (duration : option timedelta) : string :=
  match duration with
  | None => "Unknown"
  | Some duration =>
      if negb (timedelta_truthy duration) then "Unknown"
      else
        let days := days duration in
        let '(hours, remainder) := divmod (seconds duration) 3600 in
        let '(minutes, seconds) := divmod remainder 60 in
        let parts := [] in
        let parts :=
          if int_truthy days
          then append parts (str_int days ++ " day" ++ plural days)
          else parts in
        let parts :=
          if int_truthy hours
          then append parts (str_int hours ++ " hour" ++ plural hours)
          else parts in
        let parts :=
          if int_truthy minutes
          then append parts (str_int minutes ++ " minute" ++ plural minutes)
          else parts in
        let parts :=
          if int_truthy seconds && negb (int_truthy days || int_truthy hours)
          then append parts (str_int seconds ++ " second" ++ plural seconds)
          else parts in
        join ", " parts
  end%string.

(** Modelled from the spec: [Route.get_total_duration] lives in
    [route_to_art.models].  Section 4.2: if every point across all segments
    carries a timestamp the result is [max(timestamp) - min(timestamp)] over
    the whole route; if any point lacks one the result is unknown ([None]).
    The specification is silent about a route without points; [None] is
    returned there and nothing below depends on that choice. *)
Definition all_points (r : Route) : list GeoPoint :=
  flat_map points (segments r).

Definition timedelta_of_microseconds (us : Z) : timedelta :=
  mkTimedelta (us / 86400000000) ((us mod 86400000000) / 1000000) (us mod 1000000).

Definition total_duration (r : Route) : option timedelta :=
  if forallb has_timestamp (all_points r) then
    match omap timestamp (all_points r) with
    | [] => None
    | t :: ts =>
        Some (timedelta_of_microseconds
                (fold_right Z.max t ts - fold_right Z.min t ts))
    end
  else None.

(** The line the [info] command prints:
    [click.echo(f"Duration: {format_duration(duration)}")]. *)
Definition info_duration_line (duration : option timedelta) : string :=
  ("Duration: " ++ format_duration duration)%string.

(** ** [distance] *)







(** ** The rendering block of [convert] *)

Module Cli.

(** What the command leaves behind: log records, terminal output, and the
    calls it makes on the visualizer. *)
Inductive event :=
| log_info (msg : string)
| log_debug (msg : string)
| log_warning (msg : string)
| log_error (msg : string)
| echo (msg : string)
| secho (msg : string) (fg : string)
| call (method : string).

(** How a piece of the command ends: it returns, it raises an instance of
    [Exception], or the process exits ([sys.exit], which no
    [except Exception] handler intercepts). *)
Inductive outcome (A : Type) :=
| Returns (a : A)
| Raises (e : exn)
| Exits (code : Z).
Arguments Returns {A} a.
Arguments Raises {A} e.
Arguments Exits {A} code.

Definition IO (A : Type) : Type := list event * outcome A.

Definition ret {A} (a : A) : IO A := ([], Returns a).

Definition bind {A B} (m : IO A) (k : A -> IO B) : IO B :=
  match m with
  | (t, Returns a) => let '(t', o) := k a in (t ++ t', o)
  | (t, Raises e) => (t, Raises e)
  | (t, Exits c) => (t, Exits c)
  end.

Definition raise {A} (e : exn) : IO A := ([], Raises e).

Definition emit (ev : event) : IO unit := ([ev], Returns tt).

(** [try: m  except Exception as e: handler(e)] *)
Definition try_except {A} (m : IO A) (handler : exn -> IO A) : IO A :=
  match m with
  | (t, Raises e) => let '(t', o) := handler e in (t ++ t', o)
  | other => other
  end.

Declare Scope cli_scope.
Delimit Scope cli_scope with cli.
Notation "'do' x ':=' m 'in' k" := (bind m (fun x => k))
  (at level 10, x name, m at level 100, k at level 200) : cli_scope.

(** The values an entry of the merged options dictionary holds here. *)
Inductive pyval :=
| PyNone
| PyBool (b : bool)
| PyStr (s : string).

Definition truthy (v : pyval) : bool :=
  match v with
  | PyNone => false
  | PyBool b => b
  | PyStr s => negb (String.eqb s "")
  end.

(** [options.get("markers")] and [options.get("overlay")]. *)
Record options := mkOptions {
  markers : pyval;
  overlay : pyval
}.

(** [route_to_art.visualizer] is outside [main.py]: each call on the
    visualizer either returns ([None]) or raises the given exception. *)
Record visualizer := mkVisualizer {
  RouteVisualizer : option exn;
  create_figure : option exn;
  render_route : option exn;
  add_distance_markers : option exn;
  add_overlay : option exn
}.

Definition invoke (method : string) (behaviour : option exn) : IO unit :=
  match behaviour with
  | None => ([call method], Returns tt)
  | Some e => ([call method], Raises e)
  end.

(** [[field.strip() for field in options.get("overlay").split(',')]]:
    only a string has [split]; the resulting fields are handed to
    [add_overlay] and do not steer the control flow. *)
Definition overlay_fields (v : pyval) : IO unit :=
  match v with
  | PyStr _ => ret tt
  | PyBool _ =>
      raise (Exception AttributeError "'bool' object has no attribute 'split'")
  | PyNone =>
      raise (Exception AttributeError "'NoneType' object has no attribute 'split'")
  end.

Definition add_markers_step (opts : options) (vis : visualizer) : IO unit :=
  if truthy (markers opts) then
    try_except
      (do _ := emit (log_info "Adding distance markers") in
       invoke "add_distance_markers" (add_distance_markers vis))%cli
      (fun e =>
         do _ := emit (log_warning ("Error adding markers: " ++ str_exn e)) in
         do _ := emit (secho ("Error adding markers: " ++ str_exn e) "yellow") in
         emit (echo "Continuing without markers..."))%cli
  else ret tt.

Definition add_overlay_step (opts : options) (vis : visualizer) : IO unit :=
  if truthy (overlay opts) then
    try_except
      (do _ := emit (log_info "Adding information overlay") in
       do _ := overlay_fields (overlay opts) in
       invoke "add_overlay" (add_overlay vis))%cli
      (fun e => emit (log_warning ("Failed to add overlay: " ++ str_exn e)))
  else ret tt.

(** Lines 420-474 of [convert]: create the visualizer, render the route,
    then the two optional steps, all inside the outer [try]. *)
Definition render_block (opts : options) (vis : visualizer) : IO unit :=
  (do _ := emit (echo "Rendering route...") in
   do _ := emit (log_info "Creating visualization") in
   try_except
     (do _ := invoke "RouteVisualizer" (RouteVisualizer vis) in
      do _ := invoke "create_figure" (create_figure vis) in
      do _ := emit (log_debug "Rendering route") in
      do _ := invoke "render_route" (render_route vis) in
      do _ := add_markers_step opts vis in
      add_overlay_step opts vis)
     (fun e =>
        do _ := emit (log_error ("Error rendering route: " ++ str_exn e)) in
        raise (Exception RenderingError ("Failed to render route: " ++ str_exn e))))%cli.

(** [convert] from the rendering block on; [export_and_report] stands for
    the rest of the function (lines 476-566: export, then the summary). *)
Definition convert_from_render (opts : options) (vis : visualizer)
    (export_and_report : IO unit) : IO unit :=
  (do _ := render_block opts vis in export_and_report)%cli.

End Cli.

(** ** Properties of routes used in the statements *)

(** A point lies beyond 85 degrees of latitude, north or south. *)
Definition extreme_latitude (p : GeoPoint) : bool :=
  (85 <? abs (latitude p))%float.

(** A point lies within 85 degrees of the equator. *)
Definition within_85 (p : GeoPoint) : bool :=
  ((-85 <=? latitude p) && (latitude p <=? 85))%float.

(** The points of a route in segment-then-point order, each with the
    position of its segment and its own position in the segment. *)
Definition indexed_points (r : Route) : list (Z * Z * GeoPoint) :=
  flat_map (fun '(i, s) => map (fun '(j, p) => (i, j, p)) (enumerate (points s)))
           (enumerate (segments r)).





(** The timestamps of a segment are absent everywhere, or present on every
    point, strictly increasing and distinct. *)
Definition timestamps_in_order (s : Segment) : Prop :=
  (forall p, p ∈ points s -> timestamp p = None) \/
  (exists ts, map timestamp (points s) = map Some ts /\
              StronglySorted Z.lt ts /\ NoDup ts).

Record fully_valid (r : Route) : Prop := {
  valid_has_segment : segments r <> [];
  valid_sizes : forall s, s ∈ segments r -> 2 <= len (points s) <= 10000;
  valid_latitudes : forall p, p ∈ all_points r -> within_85 p = true;
  valid_timestamps : forall s, s ∈ segments r -> timestamps_in_order s
}.

(** ** Closed forms of the loops, used in the proofs *)

Definition segment_findings (item : Z * Segment) : list string :=
  let '(i, s) := item in
  match points s with
  | [] => [msg_no_points i]
  | _ :: _ =>
      (if len (points s) <? 2 then [msg_one_point i] else [])
      ++ (if 10000 <? len (points s)
          then [msg_many_points i (len (points s))] else [])
  end.

Definition point_findings (str_float : float -> string) (i : Z)
    (item : Z * GeoPoint) : list string :=
  let '(j, p) := item in
  if extreme_latitude p then [msg_extreme_latitude str_float i j (latitude p)]
  else [].

Definition coordinate_findings (str_float : float -> string)
    (item : Z * Segment) : list string :=
  let '(i, s) := item in
  flat_map (point_findings str_float i) (enumerate (points s)).

(** The finding for an indexed point, and the test that selects the points
    that get one. *)
Definition finding_of (str_float : float -> string) (x : Z * Z * GeoPoint)
  : string :=
  let '(i, j, p) := x in msg_extreme_latitude str_float i j (latitude p).

Definition is_extreme (x : Z * Z * GeoPoint) : bool :=
  let '(_, _, p) := x in extreme_latitude p.

Fixpoint decreasing_pair (pts : list GeoPoint) : bool :=
  match pts with
  | p :: (q :: _) as rest =>
      match timestamp q, timestamp p with
      | Some curr, Some prev => (curr <? prev) || decreasing_pair rest
      | _, _ => decreasing_pair rest
      end
  | _ => false
  end.

Definition has_duplicates (ts : list datetime) : bool :=
  Z.of_nat (size (list_to_set ts : gset datetime)) <? len ts.

Definition timestamp_findings (item : Z * Segment) : list string :=
  let '(i, s) := item in
  if existsb has_timestamp (points s) then
    (if existsb timestamp_is_none (points s) then [msg_inconsistent i] else [])
    ++ (if decreasing_pair (points s) then [msg_out_of_order i] else [])
    ++ (if has_duplicates (omap timestamp (points s)) then [msg_duplicate i] else [])
  else [].

(** ** Sample data *)

Definition pt (lat : float) (ts : option datetime) : GeoPoint :=
  mkGeoPoint lat 0 None ts.

Definition empty_route : Route := mkRoute None [].

Definition good_route : Route :=
  mkRoute (Some "Morning run"%string)
    [ mkSegment [pt 10 (Some 100); pt 11 (Some 200); pt 12 (Some 350)];
      mkSegment [pt 84.5 None; pt (-85) None] ].

Definition sparse_route : Route :=
  mkRoute None [ mkSegment []; mkSegment [pt 10 None] ].

Definition polar_route : Route :=
  mkRoute None [ mkSegment [pt 10 None; pt 86 None];
                 mkSegment [pt (-85.5) None; pt 85 None] ].

Definition backwards_route : Route :=
  mkRoute None [ mkSegment [pt 10 (Some 300); pt 10 (Some 200)] ].

Definition patchy_route : Route :=
  mkRoute None
    [ mkSegment [pt 10 (Some 5); pt 10 None; pt 10 (Some 3); pt 10 (Some 3)] ].

Definition standstill_route : Route :=
  mkRoute None [ mkSegment [pt 10 (Some 100); pt 10 (Some 100)];
                 mkSegment [pt 10 (Some 100)] ].

Definition untimed_route : Route :=
  mkRoute None [ mkSegment [pt 10 None; pt 11 None] ].

Definition origin : GeoPoint := mkGeoPoint 0 0 None None.

Definition marker_failure : exn :=
  Exception (OtherException "ValidationError") "interval must be positive".

Definition overlay_failure : exn :=
  Exception (OtherException "KeyError") "'pace'".

Definition failing_visualizer : Cli.visualizer :=
  Cli.mkVisualizer None None None (Some marker_failure) (Some overlay_failure).

Definition all_requested : Cli.options :=
  Cli.mkOptions (Cli.PyBool true) (Cli.PyStr "distance,pace").

(** ** Further properties of routes *)



(** ** The [validate] command and [handle_command_errors] *)

Module Commands.

Import Cli.

(** ["\n"] *)
Definition nl : string := String "010"%char EmptyString.

(** [sys.exit(code)] *)
Definition sys_exit {A} (code : Z) : IO A := ([], Exits code).

(** [for item in items: body(item)] *)
Fixpoint for_each_do {A} (items : list A) (body : A -> IO unit) : IO unit :=
  match items with
  | [] => ret tt
  | x :: items' => (do _ := body x in for_each_do items' body)%cli
  end.

(** A call of a validator on the route object: its findings and the route
    as the call leaves it, or the exception it raises. *)
Definition run {A} (m : M A) (route : Route) : IO (A * Route) :=
  match m route with
  | Ok x => ret x
  | Raise e => raise e
  end.

(** [route_to_art.parsers] is outside [main.py].  What [RouteParser] does
    with a file: the constructor or [parse()] raises; [parse()] returns
    nothing and [get_error()] tells why; or [parse()] returns data, from which
    [to_route] builds the route or raises. *)
Inductive parser_behaviour :=
| ParserRaises (e : exn)
| ParseEmpty (error : string)
| ParseData (to_route : result Route).

(** One of the three blocks
    [if issues: click.secho(title, fg="yellow"); for issue in issues: click.echo(f"- {issue}")]. *)
Definition show_issues (title : string) (issues : list string) : IO unit :=
  match issues with
  | [] => ret tt
  | _ :: _ =>
      (do _ := emit (secho (nl ++ title) "yellow") in
       for_each_do issues (fun issue => emit (echo ("- " ++ issue))))%cli
  end.

(** The [validate] command.  [shown_path] is
    [click.format_filename(os.path.abspath(input_file))]; the [bold] flag of
    [click.secho] only changes the weight of the text and is not recorded. *)
Definition validate (str_float : float -> string) (shown_path : string)
    (parser : parser_behaviour) : IO unit :=
  match parser with
  | ParserRaises e => raise e
  | ParseEmpty error =>
      (do _ := emit (secho ("Error: " ++ error) "red") in sys_exit 1)%cli
  | ParseData to_route =>
      (do route := match to_route with Ok r => ret r | Raise e => raise e end in
       do _ := emit (secho (nl ++ "=== Route Validation Results ===") "blue") in
       do _ := emit (echo ("File: " ++ shown_path)) in
       do checked := run validate_segments route in
       let '(segment_issues, route) := checked in
       do checked := run (validate_coordinates str_float) route in
       let '(coordinate_issues, route) := checked in
       do checked := run validate_timestamps route in
       let '(timestamp_issues, route) := checked in
       let all_issues :=
         (segment_issues ++ coordinate_issues ++ timestamp_issues)%list in
       match all_issues with
       | [] =>
           do _ := emit (secho (nl ++ "✓ Route data is valid") "green") in
           do _ := emit (echo "No issues found") in
           sys_exit 0
       | _ :: _ =>
           do _ := emit (secho (nl ++ "✗ Found " ++ str_int (len all_issues)
                                ++ " issues in route data:") "red") in
           do _ := show_issues "Segment Issues:" segment_issues in
           do _ := show_issues "Coordinate Issues:" coordinate_issues in
           do _ := show_issues "Timestamp Issues:" timestamp_issues in
           do _ := emit (echo (nl ++ "Fix these issues to ensure proper "
                               ++ "processing of the route data.")) in
           sys_exit 1
       end)%cli
  end.

(** *** [handle_command_errors] *)

(** [route_to_art.exceptions] is outside [main.py]: the [isinstance] tests
    against its classes and the [suggestion] attribute of a [RouteArtError]
    are taken as given. *)
Record exception_classes := mkClasses {
  is_RouteArtError : exn -> bool;
  is_ExportError : exn -> bool;
  is_ConfigError : exn -> bool;
  suggestion : exn -> option string
}.

(** Truthiness of an optional string: neither [None] nor [""]. *)
Definition str_truthy (s : option string) : bool :=
  match s with
  | Some s => negb (String.eqb s "")
  | None => false
  end.

(** [try: m  except <class> as e: handler(e)]: only exceptions of the class
    are intercepted. *)
Definition try_except_when {A} (is_class : exn -> bool) (m : IO A)
    (handler : exn -> IO A) : IO A :=
  match m with
  | (t, Raises e) =>
      if is_class e then let '(t', o) := handler e in (t ++ t', o)%list
      else (t, Raises e)
  | other => other
  end.


(** *** The stages of [convert] around the rendering block *)

(** The [RouteParseError] factories the parsing stage calls. *)
Record parse_errors := mkParseErrors {
  invalid_route_file : string -> exn;
  missing_track : exn;
  no_coordinates : exn
}.

(** Modelled from the spec: [Route.get_total_points] lives in
    [route_to_art.models]; section 3 calls it the total point count. *)
Definition get_total_points (r : Route) : Z := len (all_points r).

(** Lines 386-418: parse the file and build the route. *)
Definition parse_stage (classes : exception_classes) (errors : parse_errors)
    (parser : parser_behaviour) : IO Route :=
  (do _ := emit (echo "Parsing route data from GPX-format file...") in
   try_except
     match parser with
     | ParserRaises e => raise e
     | ParseEmpty error_msg => raise (invalid_route_file errors error_msg)
     | ParseData to_route =>
         do route := match to_route with Ok r => ret r | Raise e => raise e end in
         match segments route with
         | [] => raise (missing_track errors)
         | _ :: _ =>
             if negb (int_truthy (get_total_points route))
             then raise (no_coordinates errors)
             else ret route
         end
     end
     (fun e =>
        if negb (is_RouteArtError classes e)
        then raise (invalid_route_file errors (str_exn e))
        else raise e))%cli.

(** [route_to_art.exporters] is outside [main.py].  The constructor
    [Exporter()] returns or raises; so does [export_multiple] (the evaluation
    of its arguments, [visualizer.get_figure()] among them, included);
    [get_format] raises or returns a format, of which the stage uses the text
    [export_format.name.lower().upper()]. *)
Record exporter := mkExporter {
  Exporter_init : option exn;
  export_multiple : option exn;
  get_format : result string
}.

(** The name [ExportFormat] is bound nowhere in [main.py]: evaluating it
    raises. *)
Definition ExportFormat_unbound : exn :=
  Exception (OtherException "NameError") "name 'ExportFormat' is not defined".

(** Lines 476-525: the export.  [formats] is the [--format] argument and
    [format_list] is [[f.strip() for f in formats.split(',')]]. *)
Definition export_stage (classes : exception_classes)
    (formats : option string) (format_list : list string) (ex : exporter)
  : IO unit :=
  (do _ := invoke "Exporter" (Exporter_init ex) in
  if str_truthy formats then
    try_except_when (is_ExportError classes)
      (do _ := emit (echo ("Exporting to " ++ join ", " format_list
                           ++ " formats...")) in
       invoke "export_multiple" (export_multiple ex))%cli
      (fun e =>
         do _ := emit (secho ("Error: " ++ str_exn e) "red") in
         sys_exit 1)%cli
  else
    try_except_when (is_ExportError classes)
      (do _ := emit (call "get_format") in
       do FORMAT_NAME := match get_format ex with
                         | Ok shown => ret shown
                         | Raise e => raise e
                         end in
       do _ := emit (echo ("Exporting " ++ FORMAT_NAME ++ "...")) in
       raise ExportFormat_unbound)%cli
      (fun e =>
         do _ := emit (secho ("Error: " ++ str_exn e) "red") in
         sys_exit 1)%cli)%cli.

(** The command-line arguments the summary at the end of [convert] reads. *)
Record cli_args := mkArgs {
  color : option string;
  thickness : option string;
  style : option string;
  markers : pyval;
  markers_unit : option string;
  marker_interval : option float;
  marker_size : option float;
  marker_color : option string;
  label_font_size : option Z;
  overlay : option string;
  overlay_position : option string;
  font_size : option Z;
  font_color : option string;
  background : pyval;
  bg_color : option string;
  bg_alpha : option float
}.

(** How an f-string renders an optional value. *)
Definition fmt_str (s : option string) : string :=
  match s with Some s => s | None => "None" end.

Definition fmt_int (n : option Z) : string :=
  match n with Some n => str_int n | None => "None" end.

Definition fmt_float (str_float : float -> string) (x : option float) : string :=
  match x with Some x => str_float x | None => "None" end.

(** Truthiness of an optional float: neither [None] nor zero. *)
Definition float_truthy (x : option float) : bool :=
  match x with
  | Some x => negb (x =? 0)%float
  | None => false
  end.

(** [color.startswith('#')]: [None] has no such method. *)
Definition startswith_hash (color : option string) : IO bool :=
  match color with
  | Some s => ret (String.prefix "#" s)
  | None =>
      raise (Exception AttributeError
               "'NoneType' object has no attribute 'startswith'")
  end.

Local Open Scope string_scope.

(** Lines 528-566: the summary of what was drawn. *)
Definition report_stage (str_float : float -> string) (args : cli_args)
  : IO unit :=
  (do hash := startswith_hash (color args) in
   let style_info :=
     [ if hash : bool then "Color: " ++ fmt_str (color args)
       else "Color: " ++ fmt_str (color args);
       "Thickness: " ++ fmt_str (thickness args);
       "Style: " ++ fmt_str (style args) ] in
   do _ := emit (echo ("Style: " ++ join ", " style_info)) in
   do _ := (if truthy (markers args) then
              let marker_info := [ "Unit: " ++ fmt_str (markers_unit args) ] in
              let marker_info :=
                if float_truthy (marker_interval args)
                then append marker_info
                       ("Interval: " ++ fmt_float str_float (marker_interval args)
                        ++ " " ++ fmt_str (markers_unit args))
                else append marker_info
                       ("Interval: 1.0 " ++ fmt_str (markers_unit args)) in
              let marker_info :=
                if str_truthy (marker_color args)
                then append marker_info ("Color: " ++ fmt_str (marker_color args))
                else marker_info in
              let marker_info :=
                append marker_info
                  ("Size: " ++ fmt_float str_float (marker_size args)) in
              let marker_info :=
                append marker_info
                  ("Label size: " ++ fmt_int (label_font_size args)) in
              emit (echo ("Markers: " ++ join ", " marker_info))
            else ret tt) in
   if str_truthy (overlay args) then
     let overlay_info :=
       [ "Fields: " ++ fmt_str (overlay args);
         "Position: " ++ fmt_str (overlay_position args);
         "Font size: " ++ fmt_int (font_size args);
         "Font color: " ++ fmt_str (font_color args);
         "Background: " ++ (if truthy (background args) then "On" else "Off") ] in
     let overlay_info :=
       if truthy (background args)
       then append (append overlay_info ("BG color: " ++ fmt_str (bg_color args)))
                   ("BG alpha: " ++ fmt_float str_float (bg_alpha args))
       else overlay_info in
     emit (echo ("Overlay: " ++ join ", " overlay_info))
   else ret tt)%cli.



End Commands.

(** ** Sample collaborators *)

Definition class_named (class_name : string) (e : exn) : bool :=
  match exn_class_of e with
  | OtherException n => String.eqb n class_name
  | _ => false
  end.

Definition sample_classes : Commands.exception_classes :=
  Commands.mkClasses
    (fun e => match exn_class_of e with
              | RenderingError => true
              | _ => class_named "RouteParseError" e
              end)
    (class_named "ExportError")
    (class_named "ConfigError")
    (fun _ => None).

Definition sample_errors : Commands.parse_errors :=
  Commands.mkParseErrors
    (fun msg => Exception (OtherException "RouteParseError")
                  ("Invalid route file: " ++ msg))
    (Exception (OtherException "RouteParseError") "No track found")
    (Exception (OtherException "RouteParseError") "No coordinates found").

Definition plain_args : Commands.cli_args :=
  Commands.mkArgs (Some "#ff0000"%string) None None (Cli.PyBool false) None None
    None None None None None None None (Cli.PyBool false) None None.


(** ** [get_config] and [get_effective_options] *)

Module Options.

(** A computation that returns or raises (the variable [result] of the
    source takes that name below). *)
Definition fallible (A : Type) : Type := result A.

#[local] Unset Elimination Schemes.

(** The values the option and configuration dictionaries hold. *)
Inductive value :=
| VNone
| VBool (b : bool)
| VInt (n : Z)
| VFloat (x : float)
| VStr (s : string)
| VList (items : list value).

#[local] Set Elimination Schemes.

Definition is_None (v : value) : bool :=
  match v with VNone => true | _ => false end.

(** [bool(v)] *)
Definition value_truthy (v : value) : bool :=
  match v with
  | VNone => false
  | VBool b => b
  | VInt n => negb (n =? 0)
  | VFloat x => negb (x =? 0)%float
  | VStr s => negb (String.eqb s "")
  | VList items => match items with [] => false | _ :: _ => true end
  end.

(** A [dict] with string keys, in insertion order. *)
Definition dict : Type := list (string * value).

(** [d.get(k)]: the value, or nothing when [k] is not a key. *)
Fixpoint dict_get (d : dict) (k : string) : option value :=
  match d with
  | [] => None
  | (k', v) :: d' => if String.eqb k' k then Some v else dict_get d' k
  end.

(** [d[k] = v] *)
Fixpoint dict_set (d : dict) (k : string) (v : value) : dict :=
  match d with
  | [] => [(k, v)]
  | (k', v') :: d' =>
      if String.eqb k' k then (k', v) :: d' else (k', v') :: dict_set d' k v
  end.

(** [k in d and d[k] is not None] *)
Definition provided (d : dict) (k : string) : bool :=
  match dict_get d k with
  | Some v => negb (is_None v)
  | None => false
  end.

(** [route_to_art.config] is outside [main.py].  Of a [Config] object the
    merge reads [config.get(key)] ([None] for a missing key) and
    [config.get_defaults().get("markers", {}).get("enabled", False)]. *)
Record Config := mkConfig {
  config_get : string -> value;
  markers_enabled : value
}.

(** [get_config]: [_config] is the module-level variable, [load] is the
    constructor [Config(config_path=...)], which returns or raises.  The
    result is the returned value (or the exception) and the new [_config]. *)
Definition get_config (load : option string -> result Config)
    (config_path : option string) (_config : option Config)
  : result (option Config) * option Config :=
  if match _config with None => true | Some _ => false end
     || Commands.str_truthy config_path
  then
    match load config_path with
    | Ok c => (Ok (Some c), Some c)
    | Raise e => (Raise e, _config)
    end
  else (Ok _config, _config).

(** The table [config_to_cli], in source order. *)
Definition config_to_cli : list (string * option string) :=
  [ ("thickness", Some "thickness");
    ("color", Some "color");
    ("style", Some "style");
    ("markers.enabled", Some "markers");
    ("markers.unit", Some "markers_unit");
    ("markers.interval", Some "marker_interval");
    ("markers.size", Some "marker_size");
    ("markers.color", Some "marker_color");
    ("markers.label_font_size", Some "label_font_size");
    ("overlay.enabled", Some "overlay");
    ("overlay.position", Some "overlay_position");
    ("overlay.font_size", Some "font_size");
    ("overlay.font_color", Some "font_color");
    ("overlay.background", Some "background");
    ("overlay.bg_color", Some "bg_color");
    ("overlay.bg_alpha", Some "bg_alpha");
    ("export.formats", Some "formats");
    ("export.width", None);
    ("export.height", None);
    ("export.dpi", Some "dpi");
    ("export.page_size", Some "page_size") ]%string.

Definition TypeError (msg : string) : exn :=
  Exception (OtherException "TypeError") msg.

(** The strings of a list of values, when all of them are strings. *)
Fixpoint all_strings (items : list value) : option (list string) :=
  match items with
  | [] => Some []
  | VStr s :: items' =>
      match all_strings items' with
      | Some ss => Some (s :: ss)
      | None => None
      end
  | _ :: _ => None
  end.

(** [",".join(v)]: [v] must be an iterable of strings; a string is the
    sequence of its characters (text is taken to be ASCII). *)
Definition join_value (sep : string) (v : value) : result string :=
  match v with
  | VStr s =>
      Ok (join sep (map (fun c => String c EmptyString) (list_ascii_of_string s)))
  | VList items =>
      match all_strings items with
      | Some ss => Ok (join sep ss)
      | None => Raise (TypeError "sequence item: expected str instance")
      end
  | _ => Raise (TypeError "can only join an iterable")
  end.

(** The body of [for config_key, cli_key in config_to_cli.items()]. *)
Definition merge_config_entry (config : Config) (option_dict : dict)
    (item : string * option string) (result : dict) : fallible dict :=
  let '(config_key, cli_key) := item in
  match cli_key with
  | None => Ok result                                           (* continue *)
  | Some cli_key =>
      if provided option_dict cli_key then Ok result            (* continue *)
      else if String.eqb config_key "overlay.enabled"
              && provided option_dict "overlay" then Ok result  (* continue *)
      else
        let value := config_get config ("defaults." ++ config_key) in
        if is_None value then Ok result
        else if String.eqb config_key "overlay.fields" && value_truthy value then
          match join_value "," value with
          | Ok joined => Ok (dict_set result "overlay" (VStr joined))
          | Raise e => Raise e
          end
        else if String.eqb config_key "export.formats" && value_truthy value then
          match join_value "," value with
          | Ok joined => Ok (dict_set result "formats" (VStr joined))
          | Raise e => Raise e
          end
        else if negb (String.eqb cli_key "") then Ok (dict_set result cli_key value)
        else Ok result
  end.

Fixpoint merge_config (config : Config) (option_dict : dict)
    (table : list (string * option string)) (result : dict) : fallible dict :=
  match table with
  | [] => Ok result
  | item :: table' =>
      match merge_config_entry config option_dict item result with
      | Ok result' => merge_config config option_dict table' result'
      | Raise e => Raise e
      end
  end.

(** [for key, value in option_dict.items(): if value is not None: result[key] = value] *)
Fixpoint override_with_cli (items : dict) (result : dict) : dict :=
  match items with
  | [] => result
  | (key, value) :: items' =>
      override_with_cli items'
        (if is_None value then result else dict_set result key value)
  end.

(** [get_effective_options]; [config] is what [get_config(config_path)]
    returned. *)
Definition get_effective_options (config : Config) (option_dict : dict)
  : fallible dict :=
  let result : dict := [] in
  let result :=
    match dict_get option_dict "markers" with
    | Some (VBool false) => dict_set result "markers" (VBool false)
    | _ =>
        if value_truthy (markers_enabled config)
        then dict_set result "markers" (VBool true)
        else result
    end in
  match merge_config config option_dict config_to_cli result with
  | Ok result => Ok (override_with_cli option_dict result)
  | Raise e => Raise e
  end.

End Options.

Definition sample_config : Options.Config :=
  Options.mkConfig
    (fun key =>
       if String.eqb key "defaults.color" then Options.VStr "#112233"
       else if String.eqb key "defaults.thickness" then Options.VStr "thin"
       else if String.eqb key "defaults.overlay.enabled" then Options.VBool true
       else if String.eqb key "defaults.export.formats"
            then Options.VList [Options.VStr "png"; Options.VStr "svg"]
       else Options.VNone)
    (Options.VBool true).

Definition sample_option_dict : Options.dict :=
  [ ("color", Options.VStr "#ff0000"); ("thickness", Options.VNone);
    ("markers", Options.VBool false); ("formats", Options.VNone) ]%string.

(** What the entries of [config_to_cli] have in common: none is the key
    ["overlay.fields"], and the entry for ["export.formats"] writes to its
    own option, ["formats"]. *)
Definition plain_entry (item : string * option string) : Prop :=
  fst item <> "overlay.fields"%string /\
  (fst item = "export.formats"%string -> snd item = Some "formats"%string).

(** A configuration that differs from [sample_config] in its overlay fields
    only. *)
Definition sample_config_with_fields : Options.Config :=
  Options.mkConfig
    (fun key =>
       if String.eqb key "defaults.overlay.fields"
       then Options.VList [Options.VStr "distance"; Options.VStr "duration"]
       else Options.config_get sample_config key)
    (Options.markers_enabled sample_config).

(** ** [init_config] *)

Module Setup.

Import Cli.
Import Commands.

(** What the function sees of the file system: [os.path.exists],
    [os.path.dirname(os.path.abspath(path))], and whether [os.makedirs] and
    the writing of the file ([open(path, 'w')] and [f.write]) return or
    raise. *)
Record filesystem := mkFilesystem {
  path_exists : string -> bool;
  directory_of : string -> string;
  makedirs : option exn;
  write_file : option exn
}.

(** What the function uses of the [Config] object it creates. *)
Record config_object := mkConfigObject {
  construct : option exn;
  get_default_path : string;
  generate_sample : result string
}.

(** [init_config(path, force)]; [is_OSError] is the test behind
    [except OSError].  The two [return 1] inside the first [try] are the
    early result [Some 1] of that block. *)
Definition init_config (is_OSError : exn -> bool) (config : config_object)
    (fs : filesystem) (path : option string) (force : bool) : IO (option Z) :=
  (do _ := invoke "Config" (construct config) in
   let path :=
     match path with
     | Some p => if negb (String.eqb p "") then p else get_default_path config
     | None => get_default_path config
     end in
   if path_exists fs path && negb force then
     do _ := emit (secho ("Config file already exists at " ++ path) "yellow") in
     do _ := emit (echo "Use --force to overwrite") in
     ret (Some 1)
   else
     let directory := directory_of fs path in
     do early :=
       (if negb (path_exists fs directory) then
          try_except_when is_OSError
            (do _ := invoke "os.makedirs" (makedirs fs) in
             do _ := emit (echo ("Created directory: " ++ directory)) in
             ret None)
            (fun e =>
               do _ := emit (secho ("Error creating directory " ++ directory
                                    ++ ": " ++ str_exn e) "red") in
               ret (Some 1))
        else ret None) in
     match early with
     | Some code => ret (Some code)
     | None =>
         do sample_config := match generate_sample config with
                             | Ok s => ret s
                             | Raise e => raise e
                             end in
         try_except_when is_OSError
           (do _ := invoke "write" (write_file fs) in
            do _ := emit (secho ("Config file created at " ++ path) "green") in
            do _ := emit (echo "You can now customize your configuration file.") in
            ret (Some 0))
           (fun e =>
              do _ := emit (secho ("Error writing config file: " ++ str_exn e)
                              "red") in
              ret (Some 1))
     end)%cli.

(** The path the function works on: the argument, or the default path when
    the argument is missing or empty. *)
Definition effective_path (config : config_object) (path : option string)
  : string :=
  match path with
  | Some p => if negb (String.eqb p "") then p else get_default_path config
  | None => get_default_path config
  end.

End Setup.

Definition sample_filesystem : Setup.filesystem :=
  Setup.mkFilesystem (fun p => String.eqb p "/home/u/.route-to-art/config.yml")
    (fun _ => "/home/u/.route-to-art"%string) None None.

Definition sample_config_object : Setup.config_object :=
  Setup.mkConfigObject None "/home/u/.route-to-art/config.yml"
    (Ok "defaults: {}"%string).

(** * Theorems *)

(** ** Running a loop whose body only appends *)

Section Loops.

Context {A : Type}.
Variable body : A -> list string -> M (list string).
Variable findings : A -> list string.
Hypothesis body_appends :
  forall x acc r, body x acc r = Ok (acc ++ findings x, r).

Lemma for_each_appends (items : list A) :
  forall acc r,
    for_each items body acc r = Ok (acc ++ flat_map findings items, r).
Proof.
  induction items as [|x items IH]; intros acc r; simpl.
  - unfold ret. now rewrite app_nil_r.
  - unfold bind. rewrite body_appends, IH. now rewrite <- app_assoc.
Qed.

End Loops.

Lemma enumerate_from_lookup {A} (xs : list A) :
  forall (start : Z) (n : nat) (x : A),
    xs !! n = Some x ->
    (start + Z.of_nat n, x) ∈ enumerate_from start xs.
Proof.
  induction xs as [|y xs IH]; intros start n x Hn; [easy|].
  destruct n as [|n]; simpl in *.
  - injection Hn as ->. change (Z.of_nat 0) with 0. rewrite Z.add_0_r. left.
  - right. replace (start + Z.of_nat (S n))
      with ((start + 1) + Z.of_nat n) by lia.
    now apply IH.
Qed.

Lemma enumerate_lookup {A} (xs : list A) (n : nat) (x : A) :
  xs !! n = Some x -> (Z.of_nat n, x) ∈ enumerate xs.
Proof. intros H. apply (enumerate_from_lookup xs 0 n x H). Qed.

Lemma enumerate_from_item {A} (xs : list A) :
  forall (start i : Z) (x : A),
    (i, x) ∈ enumerate_from start xs -> x ∈ xs.
Proof.
  induction xs as [|y xs IH]; intros start i x Hin; simpl in Hin.
  - inversion Hin.
  - apply elem_of_cons in Hin as [Heq | Hin].
    + injection Heq as _ ->. left.
    + right. eauto.
Qed.

Lemma flat_map_nil {A B} (f : A -> list B) (xs : list A) :
  (forall x, x ∈ xs -> f x = []) -> flat_map f xs = [].
Proof.
  induction xs as [|x xs IH]; intros Hf; simpl; [easy|].
  rewrite (Hf x) by left. apply IH. intros y Hy. apply Hf. now right.
Qed.

Lemma filter_none {A} (f : A -> bool) (xs : list A) :
  (forall x, x ∈ xs -> f x = false) -> List.filter f xs = [].
Proof.
  induction xs as [|x xs IH]; intros Hf; simpl; [easy|].
  rewrite (Hf x) by left. apply IH. intros y Hy. apply Hf. now right.
Qed.

Lemma elem_of_flat_map {A B} (f : A -> list B) (xs : list A) (x : A) (y : B) :
  x ∈ xs -> y ∈ f x -> y ∈ flat_map f xs.
Proof.
  intros Hx Hy. apply list_elem_of_In, in_flat_map.
  exists x. split; now apply list_elem_of_In.
Qed.

(** ** [validate_segments] *)

Lemma validate_segments_body_appends (item : Z * Segment) acc r :
  validate_segments_body item acc r = Ok (acc ++ segment_findings item, r).
Proof.
  destruct item as [i s]. unfold validate_segments_body, segment_findings.
  destruct (points s) as [|p ps]; [reflexivity|].
  unfold ret, append.
  destruct (len (p :: ps) <? 2), (10000 <? len (p :: ps)); simpl;
    rewrite <- ?app_assoc, ?app_nil_r; reflexivity.
Qed.

Lemma validate_segments_run (r : Route) :
  validate_segments r =
  Ok (match segments r with
      | [] => [msg_no_segments]
      | _ :: _ => flat_map segment_findings (enumerate (segments r))
      end, r).
Proof.
  unfold validate_segments, bind, get_segments.
  destruct (segments r) as [|s segs] eqn:E; [reflexivity|].
  now rewrite (for_each_appends _ _ validate_segments_body_appends).
Qed.

Lemma len_nil_iff {A} (xs : list A) : len xs = 0 <-> xs = [].
Proof. unfold len. destruct xs; simpl; split; intros; try easy; lia. Qed.

(** C3. [validate_segments] reports a route without segments, every segment
    without points, every segment with fewer than two points and every
    segment with more than 10000 points; a route with at least one segment,
    all of whose segments have between 2 and 10000 points, gets no structural
    finding.  (The last clause is read on routes that have a segment: the
    first clause of the same claim gives the route without segments its
    finding.) *)
Theorem validate_segments_reports (r : Route) :
  exists issues,
    validate_segments r = Ok (issues, r) /\
    (segments r = [] -> msg_no_segments ∈ issues) /\
    (forall (i : nat) (s : Segment),
        segments r !! i = Some s ->
        (len (points s) = 0 -> msg_no_points (Z.of_nat i) ∈ issues) /\
        (len (points s) = 1 -> msg_one_point (Z.of_nat i) ∈ issues) /\
        (len (points s) < 2 ->
           msg_no_points (Z.of_nat i) ∈ issues \/
           msg_one_point (Z.of_nat i) ∈ issues) /\
        (10000 < len (points s) ->
           msg_many_points (Z.of_nat i) (len (points s)) ∈ issues)) /\
    (segments r <> [] ->
     (forall s, s ∈ segments r -> 2 <= len (points s) <= 10000) ->
     issues = []).
Proof.
  eexists. split; [apply validate_segments_run|].
  split; [intros ->; left|]. split.
  - intros i s Hi.
    assert (Hne : exists s0 segs, segments r = s0 :: segs).
    { destruct (segments r) as [|s0 segs]; [easy|eauto]. }
    destruct Hne as (s0 & segs & E). rewrite E. rewrite <- E.
    pose proof (enumerate_lookup _ _ _ Hi) as Hin.
    assert (Hzero : len (points s) = 0 ->
                    msg_no_points (Z.of_nat i) ∈
                      flat_map segment_findings (enumerate (segments r))).
    { intros H0. apply len_nil_iff in H0.
      apply (elem_of_flat_map _ _ _ _ Hin). simpl. rewrite H0. left. }
    assert (Hone : len (points s) = 1 ->
                   msg_one_point (Z.of_nat i) ∈
                     flat_map segment_findings (enumerate (segments r))).
    { intros H1. apply (elem_of_flat_map _ _ _ _ Hin). simpl.
      destruct (points s) as [|p ps] eqn:Ep; [discriminate|].
      rewrite H1. simpl. left. }
    repeat split; auto.
    + intros Hlt. assert (len (points s) = 0 \/ len (points s) = 1) as [H|H]
        by (unfold len in *; lia); auto.
    + intros Hbig. apply (elem_of_flat_map _ _ _ _ Hin). simpl.
      destruct (points s) as [|p ps] eqn:Ep; [unfold len in Hbig; simpl in Hbig; lia|].
      apply Z.ltb_lt in Hbig. rewrite Hbig.
      apply elem_of_app. right. left.
  - intros Hne Hall. destruct (segments r) as [|s0 segs] eqn:E; [easy|].
    rewrite <- E in *. apply flat_map_nil. intros [i s] Hin.
    apply enumerate_from_item in Hin. specialize (Hall s Hin). simpl.
    destruct (points s) as [|p ps] eqn:Ep; [unfold len in Hall; simpl in Hall; lia|].
    set (n := len (p :: ps)) in *.
    replace (n <? 2) with false by (symmetry; apply Z.ltb_ge; lia).
    replace (10000 <? n) with false by (symmetry; apply Z.ltb_ge; lia).
    reflexivity.
Qed.

(** C9. On a route with no segments [validate_segments] returns the
    empty-route finding and nothing else: the per-segment checks are not
    reached. *)
Theorem validate_segments_empty_route (r : Route) :
  segments r = [] ->
  validate_segments r = Ok ([msg_no_segments], r) /\
  (forall i, ~ msg_no_points i ∈ [msg_no_segments]) /\
  (forall i, ~ msg_one_point i ∈ [msg_no_segments]) /\
  (forall i n, ~ msg_many_points i n ∈ [msg_no_segments]).
Proof.
  intros E. split; [rewrite validate_segments_run, E; reflexivity|].
  repeat split; intros; intros Hin; apply list_elem_of_singleton in Hin;
    discriminate Hin.
Qed.

Lemma validate_segments_empty_route_witness :
  segments empty_route = [] /\
  validate_segments empty_route = Ok (["Route has no segments"%string], empty_route).
Proof.
  split; [reflexivity|].
  exact (proj1 (validate_segments_empty_route empty_route eq_refl)).
Defined.

(** ** Latitudes as doubles *)

Lemma SF_within_bound (mb : positive) (eb : Z) (x : spec_float) :
  SFleb (S754_finite true mb eb) x = true ->
  SFleb x (S754_finite false mb eb) = true ->
  SFltb (S754_finite false mb eb) (SFabs x) = false.
Proof.
  unfold SFleb, SFltb.
  destruct x as [s|s| |s m e]; simpl; try discriminate.
  - reflexivity.
  - destruct s; discriminate.
  - destruct s; simpl.
    + intros H _. destruct (eb ?= e); try discriminate; try reflexivity.
      destruct (Pos.compare_cont Eq mb m); try discriminate; reflexivity.
    + intros _ H. rewrite (Z.compare_antisym eb e) in H.
      destruct (eb ?= e); simpl in H; try discriminate; try reflexivity.
      change (Pos.compare_cont Eq m mb) with (Pos.compare m mb) in H.
      change (Pos.compare_cont Eq mb m) with (Pos.compare mb m).
      rewrite (Pos.compare_antisym mb m) in H.
      destruct (mb ?= m)%positive; simpl in H; try discriminate; reflexivity.
Qed.

Lemma within_85_not_extreme (p : GeoPoint) :
  within_85 p = true -> extreme_latitude p = false.
Proof.
  unfold within_85, extreme_latitude.
  rewrite andb_true_iff, !leb_spec, ltb_spec, abs_spec.
  change (Prim2SF 85) with (S754_finite false 5981343255101440 (-46)).
  change (Prim2SF (-85)) with (S754_finite true 5981343255101440 (-46)).
  intros [H1 H2]. now apply SF_within_bound.
Qed.

(** ** [validate_coordinates] *)

Section CoordinateProofs.

Variable str_float : float -> string.

Lemma validate_coordinates_point_appends (i : Z) (item : Z * GeoPoint) acc r :
  validate_coordinates_point str_float i item acc r
  = Ok (acc ++ point_findings str_float i item, r).
Proof.
  destruct item as [j p].
  unfold validate_coordinates_point, point_findings, extreme_latitude.
  destruct (85 <? abs (latitude p))%float; unfold ret, append;
    now rewrite ?app_nil_r.
Qed.

Lemma validate_coordinates_body_appends (item : Z * Segment) acc r :
  validate_coordinates_body str_float item acc r
  = Ok (acc ++ coordinate_findings str_float item, r).
Proof.
  destruct item as [i s]. unfold validate_coordinates_body, coordinate_findings.
  apply for_each_appends, validate_coordinates_point_appends.
Qed.

Lemma validate_coordinates_run (r : Route) :
  validate_coordinates str_float r
  = Ok (flat_map (coordinate_findings str_float) (enumerate (segments r)), r).
Proof.
  unfold validate_coordinates, bind, get_segments.
  now rewrite (for_each_appends _ _ validate_coordinates_body_appends).
Qed.

Lemma point_findings_filter (i : Z) (items : list (Z * GeoPoint)) :
  flat_map (point_findings str_float i) items
  = map (finding_of str_float)
      (List.filter is_extreme (map (fun '(j, p) => (i, j, p)) items)).
Proof.
  induction items as [|[j p] items IH]; [reflexivity|].
  simpl. rewrite IH. destruct (extreme_latitude p); reflexivity.
Qed.

Lemma coordinate_findings_filter (items : list (Z * Segment)) :
  flat_map (coordinate_findings str_float) items
  = map (finding_of str_float)
      (List.filter is_extreme
         (flat_map (fun '(i, s) =>
                      map (fun '(j, p) => (i, j, p)) (enumerate (points s)))
                   items)).
Proof.
  induction items as [|[i s] items IH]; [reflexivity|].
  simpl. rewrite IH, List.filter_app, List.map_app.
  now rewrite point_findings_filter.
Qed.

Lemma indexed_points_point (r : Route) (x : Z * Z * GeoPoint) :
  x ∈ indexed_points r -> snd x ∈ all_points r.
Proof.
  unfold indexed_points, all_points, enumerate.
  generalize 0 at 2. induction (segments r) as [|s segs IH]; intros k Hin.
  - inversion Hin.
  - simpl in Hin. apply elem_of_app in Hin as [Hin | Hin].
    + simpl. apply elem_of_app. left.
      apply list_elem_of_fmap in Hin as ([j p] & -> & Hin).
      simpl. eapply enumerate_from_item, Hin.
    + simpl. apply elem_of_app. right. eapply IH, Hin.
Qed.

(** C2. [validate_coordinates] returns one finding for each point whose
    latitude is beyond 85 degrees in absolute value, in segment-then-point
    order, and nothing else; with no such point the list is empty, and a
    route whose latitudes all lie within 85 degrees of the equator gets no
    coordinate finding whatever its longitudes are. *)
Theorem validate_coordinates_reports (r : Route) :
  validate_coordinates str_float r
  = Ok (map (finding_of str_float) (List.filter is_extreme (indexed_points r)), r)
  /\ ((forall p, p ∈ all_points r -> extreme_latitude p = false) ->
      validate_coordinates str_float r = Ok ([], r))
  /\ ((forall p, p ∈ all_points r -> within_85 p = true) ->
      validate_coordinates str_float r = Ok ([], r)).
Proof.
  assert (Hrun : validate_coordinates str_float r
                 = Ok (map (finding_of str_float) (List.filter is_extreme (indexed_points r)), r)).
  { rewrite validate_coordinates_run. now rewrite coordinate_findings_filter. }
  assert (Hnone : (forall p, p ∈ all_points r -> extreme_latitude p = false) ->
                  validate_coordinates str_float r = Ok ([], r)).
  { intros Hall. rewrite Hrun.
    replace (List.filter is_extreme (indexed_points r)) with (@nil (Z * Z * GeoPoint));
      [reflexivity|].
    symmetry. apply filter_none. intros [[i j] p] Hin.
    apply indexed_points_point in Hin. simpl in *. auto. }
  repeat split; auto.
  intros Hall. apply Hnone. intros p Hp. apply within_85_not_extreme. auto.
Qed.

End CoordinateProofs.

(** ** [validate_timestamps]: the index loop *)

Lemma range_nil (lo hi : Z) : hi <= lo -> range lo hi = [].
Proof.
  intros H. unfold range. replace (Z.to_nat (hi - lo)) with 0%nat by lia.
  reflexivity.
Qed.

Lemma range_cons (lo hi : Z) : lo < hi -> range lo hi = lo :: range (lo + 1) hi.
Proof.
  intros H. unfold range.
  replace (Z.to_nat (hi - lo)) with (S (Z.to_nat (hi - (lo + 1)))) by lia.
  simpl. f_equal; [lia|].
  rewrite <- seq_shift, List.map_map. apply List.map_ext. intros k. lia.
Qed.

Lemma len_app {A} (xs ys : list A) : len (xs ++ ys) = len xs + len ys.
Proof. unfold len. rewrite length_app. lia. Qed.

Lemma len_cons {A} (x : A) (xs : list A) : len (x :: xs) = len xs + 1.
Proof. unfold len. simpl. lia. Qed.

Lemma len_nonneg {A} (xs : list A) : 0 <= len xs.
Proof. unfold len. lia. Qed.

Lemma getitem_middle {A} (pre : list A) (x : A) (rest : list A) (r : Route) :
  getitem (pre ++ x :: rest) (len pre) r = Ok (x, r).
Proof.
  unfold getitem. pose proof (len_nonneg pre) as Hpre.
  pose proof (len_nonneg rest) as Hrest.
  replace (len pre <? 0) with false by (symmetry; apply Z.ltb_ge; lia).
  replace (0 <=? len pre) with true by (symmetry; apply Z.leb_le; lia).
  replace (len pre <? len (pre ++ x :: rest)) with true
    by (symmetry; apply Z.ltb_lt; rewrite len_app, len_cons; lia).
  simpl. unfold len. rewrite Nat2Z.id.
  rewrite nth_error_app2 by lia. now rewrite Nat.sub_diag.
Qed.

Lemma decreasing_pair_cons (p q : GeoPoint) (rest : list GeoPoint) :
  decreasing_pair (p :: q :: rest)
  = match timestamp q, timestamp p with
    | Some curr, Some prev => (curr <? prev) || decreasing_pair (q :: rest)
    | _, _ => decreasing_pair (q :: rest)
    end.
Proof. reflexivity. Qed.

Lemma timestamp_order_loop_run (rest : list GeoPoint) :
  forall (pre : list GeoPoint) (p : GeoPoint) (r : Route),
    timestamp_order_loop (pre ++ p :: rest)
      (range (len pre + 1) (len (pre ++ p :: rest))) r
    = Ok (decreasing_pair (p :: rest), r).
Proof.
  induction rest as [|q rest IH]; intros pre p r.
  - rewrite range_nil by (rewrite len_app, len_cons; unfold len; simpl; lia).
    reflexivity.
  - rewrite range_cons
      by (rewrite len_app, !len_cons; pose proof (len_nonneg rest); lia).
    cbn [timestamp_order_loop]. unfold bind.
    replace (pre ++ p :: q :: rest) with ((pre ++ [p]) ++ q :: rest)
      by now rewrite <- app_assoc.
    replace (len pre + 1) with (len (pre ++ [p]))
      by (rewrite len_app, len_cons; unfold len; simpl; lia).
    rewrite getitem_middle.
    replace (len (pre ++ [p]) - 1) with (len pre)
      by (rewrite len_app, len_cons; unfold len; simpl; lia).
    replace ((pre ++ [p]) ++ q :: rest) with (pre ++ p :: q :: rest) at 1
      by now rewrite <- app_assoc.
    rewrite getitem_middle.
    specialize (IH (pre ++ [p]) q r).
    rewrite decreasing_pair_cons.
    destruct (timestamp q) as [curr|], (timestamp p) as [prev|]; try exact IH.
    destruct (curr <? prev); [reflexivity | rewrite IH; reflexivity].
Qed.

Lemma timestamp_order_loop_total (pts : list GeoPoint) (r : Route) :
  timestamp_order_loop pts (range 1 (len pts)) r = Ok (decreasing_pair pts, r).
Proof.
  destruct pts as [|p rest]; [reflexivity|].
  apply (timestamp_order_loop_run rest [] p r).
Qed.

Lemma validate_timestamps_body_appends (item : Z * Segment) acc r :
  validate_timestamps_body item acc r = Ok (acc ++ timestamp_findings item, r).
Proof.
  destruct item as [i s]. unfold validate_timestamps_body, timestamp_findings.
  destruct (existsb has_timestamp (points s)); simpl;
    [|unfold ret; now rewrite app_nil_r].
  unfold bind. rewrite timestamp_order_loop_total. fold (has_duplicates (omap timestamp (points s))).
  unfold ret, append.
  destruct (existsb timestamp_is_none (points s)), (decreasing_pair (points s)),
    (has_duplicates (omap timestamp (points s)));
    simpl; rewrite <- ?app_assoc, ?app_nil_r; reflexivity.
Qed.

Lemma validate_timestamps_run (r : Route) :
  validate_timestamps r
  = Ok (flat_map timestamp_findings (enumerate (segments r)), r).
Proof.
  unfold validate_timestamps, bind, get_segments.
  now rewrite (for_each_appends _ _ validate_timestamps_body_appends).
Qed.

(** ** [validate_timestamps]: the three conditions *)

Lemma existsb_has_timestamp (pts : list GeoPoint) (p : GeoPoint) :
  p ∈ pts -> timestamp p <> None -> existsb has_timestamp pts = true.
Proof.
  intros Hin Hts. apply existsb_exists. exists p.
  split; [now apply list_elem_of_In|].
  unfold has_timestamp. now destruct (timestamp p).
Qed.



(** Without a gap and without a decreasing neighbour pair the first
    timestamp is a lower bound of all later ones. *)
Lemma first_is_least (rest : list GeoPoint) :
  forall (p : GeoPoint) (t1 : datetime),
    existsb timestamp_is_none (p :: rest) = false ->
    decreasing_pair (p :: rest) = false ->
    timestamp p = Some t1 ->
    forall (k : nat) q t2,
      rest !! k = Some q -> timestamp q = Some t2 -> t1 <= t2.
Proof.
  induction rest as [|y rest IH]; intros p t1 Hall Hdec Ht1 k q t2 Hq Ht2; [easy|].
  rewrite decreasing_pair_cons, Ht1 in Hdec.
  assert (Hy : exists ty, timestamp y = Some ty).
  { simpl in Hall. apply orb_false_iff in Hall as [_ Hall].
    apply orb_false_iff in Hall as [Hy _]. unfold timestamp_is_none in Hy.
    destruct (timestamp y); [eauto|discriminate]. }
  destruct Hy as [ty Hy]. rewrite Hy in Hdec.
  apply orb_false_iff in Hdec as [Hle Hdec]. apply Z.ltb_ge in Hle.
  destruct k as [|k]; simpl in Hq.
  - injection Hq as ->. rewrite Hy in Ht2. injection Ht2 as <-. exact Hle.
  - assert (Hall' : existsb timestamp_is_none (y :: rest) = false).
    { simpl in Hall. now apply orb_false_iff in Hall as [_ Hall]. }
    specialize (IH y ty Hall' Hdec Hy k q t2 Hq Ht2). lia.
Qed.

Lemma no_decrease_anywhere (pts : list GeoPoint) :
  existsb timestamp_is_none pts = false ->
  decreasing_pair pts = false ->
  forall (j k : nat) p q t1 t2,
    (j < k)%nat -> pts !! j = Some p -> pts !! k = Some q ->
    timestamp p = Some t1 -> timestamp q = Some t2 -> t1 <= t2.
Proof.
  induction pts as [|x pts IH]; intros Hall Hdec j k p q t1 t2 Hjk Hp Hq Ht1 Ht2;
    [easy|].
  destruct k as [|k]; [lia|]. simpl in Hq.
  destruct j as [|j]; simpl in Hp.
  - injection Hp as ->. eapply first_is_least; eauto.
  - assert (Hall' : existsb timestamp_is_none pts = false).
    { simpl in Hall. now apply orb_false_iff in Hall as [_ Hall]. }
    assert (Hdec' : decreasing_pair pts = false).
    { destruct pts as [|y pts]; [reflexivity|].
      rewrite decreasing_pair_cons in Hdec.
      destruct (timestamp y), (timestamp x); auto.
      now apply orb_false_iff in Hdec as [_ Hdec]. }
    eapply (IH Hall' Hdec' j k); eauto. lia.
Qed.

Lemma size_list_to_set_le (ts : list datetime) :
  (size (list_to_set ts : gset datetime) <= length ts)%nat.
Proof.
  induction ts as [|t ts IH].
  - rewrite list_to_set_nil, size_empty. simpl. lia.
  - rewrite list_to_set_cons. cbn [length].
    rewrite size_union_alt, size_singleton.
    assert (Hsub : (list_to_set ts ∖ {[t]} : gset datetime) ⊆ list_to_set ts).
    { intros x Hx. now apply elem_of_difference in Hx as [Hx _]. }
    apply subseteq_size in Hsub. lia.
Qed.

Lemma size_list_to_set_lt (ts : list datetime) :
  ~ NoDup ts -> (size (list_to_set ts : gset datetime) < length ts)%nat.
Proof.
  induction ts as [|t ts IH]; intros Hdup.
  - exfalso. apply Hdup. constructor.
  - rewrite list_to_set_cons. cbn [length].
    destruct (decide (t ∈ ts)) as [Hin | Hnin].
    + rewrite (subseteq_union_1_L ({[t]} : gset datetime) (list_to_set ts))
        by now apply singleton_subseteq_l, elem_of_list_to_set.
      pose proof (size_list_to_set_le ts). lia.
    + rewrite size_union
        by (apply disjoint_singleton_l; now rewrite elem_of_list_to_set).
      rewrite size_singleton.
      assert (Hdup' : ~ NoDup ts) by (intros Hnd; apply Hdup; now constructor).
      specialize (IH Hdup'). lia.
Qed.

Lemma has_duplicates_spec (ts : list datetime) :
  has_duplicates ts = true <-> ~ NoDup ts.
Proof.
  unfold has_duplicates, len. rewrite Z.ltb_lt. split.
  - intros Hlt Hnd. apply (size_list_to_set (C := gset datetime)) in Hnd. lia.
  - intros Hdup. apply size_list_to_set_lt in Hdup. lia.
Qed.




(** ** A fully valid route *)

Lemma segment_findings_none (i : Z) (s : Segment) :
  2 <= len (points s) <= 10000 -> segment_findings (i, s) = [].
Proof.
  intros Hlen. simpl.
  destruct (points s) as [|p ps] eqn:Ep; [unfold len in Hlen; simpl in Hlen; lia|].
  set (n := len (p :: ps)) in *.
  replace (n <? 2) with false by (symmetry; apply Z.ltb_ge; lia).
  replace (10000 <? n) with false by (symmetry; apply Z.ltb_ge; lia).
  reflexivity.
Qed.

Lemma existsb_has_timestamp_none (pts : list GeoPoint) :
  (forall p, p ∈ pts -> timestamp p = None) -> existsb has_timestamp pts = false.
Proof.
  induction pts as [|p pts IH]; intros Hnone; simpl; [reflexivity|].
  unfold has_timestamp at 1. rewrite (Hnone p) by left. simpl.
  apply IH. intros q Hq. apply Hnone. now right.
Qed.

Lemma all_present_omap (pts : list GeoPoint) :
  forall ts, map timestamp pts = map Some ts -> omap timestamp pts = ts.
Proof.
  induction pts as [|p pts IH]; intros [|t ts] Hmap; try discriminate; [reflexivity|].
  simpl in Hmap. injection Hmap as Hp Hmap. simpl. rewrite Hp. simpl.
  f_equal. now apply IH.
Qed.

Lemma all_present_none_missing (pts : list GeoPoint) :
  forall ts, map timestamp pts = map Some ts ->
             existsb timestamp_is_none pts = false.
Proof.
  induction pts as [|p pts IH]; intros [|t ts] Hmap; try discriminate; [reflexivity|].
  simpl in Hmap. injection Hmap as Hp Hmap. simpl.
  unfold timestamp_is_none at 1. rewrite Hp. simpl. eauto.
Qed.

Lemma increasing_no_decreasing_pair (pts : list GeoPoint) :
  forall ts, map timestamp pts = map Some ts -> StronglySorted Z.lt ts ->
             decreasing_pair pts = false.
Proof.
  induction pts as [|p pts IH]; intros ts Hmap Hsorted; [reflexivity|].
  destruct pts as [|q pts]; [reflexivity|].
  destruct ts as [|t1 [|t2 ts]]; try discriminate.
  simpl in Hmap. injection Hmap as Hp Hq Hmap.
  rewrite decreasing_pair_cons, Hp, Hq.
  apply StronglySorted_inv in Hsorted as [Htail Hhead].
  apply Forall_cons in Hhead as [Hlt _].
  replace (t2 <? t1) with false by (symmetry; apply Z.ltb_ge; lia).
  simpl. apply (IH (t2 :: ts)); [|exact Htail].
  simpl. now rewrite Hq, Hmap.
Qed.

Lemma timestamp_findings_none (i : Z) (s : Segment) :
  timestamps_in_order s -> timestamp_findings (i, s) = [].
Proof.
  intros [Hnone | (ts & Hmap & Hsorted & Hnd)]; simpl.
  - now rewrite existsb_has_timestamp_none.
  - rewrite (all_present_none_missing _ _ Hmap).
    rewrite (increasing_no_decreasing_pair _ _ Hmap Hsorted).
    rewrite (all_present_omap _ _ Hmap).
    assert (Hd : has_duplicates ts = false).
    { destruct (has_duplicates ts) eqn:E; [|reflexivity].
      apply has_duplicates_spec in E. contradiction. }
    rewrite Hd. now destruct (existsb has_timestamp (points s)).
Qed.

(** C4. On a fully valid route (at least one segment, 2 to 10000 points in
    every segment, every latitude within 85 degrees of the equator, and in
    each segment timestamps absent everywhere or present everywhere, strictly
    increasing and distinct) the three validators each return the empty
    list. *)
Theorem fully_valid_no_findings (str_float : float -> string) (r : Route) :
  fully_valid r ->
  validate_segments r = Ok ([], r) /\
  validate_coordinates str_float r = Ok ([], r) /\
  validate_timestamps r = Ok ([], r).
Proof.
  intros [Hne Hsizes Hlats Htimes]. repeat split.
  - rewrite validate_segments_run.
    destruct (segments r) as [|s0 segs] eqn:E; [easy|]. rewrite <- E in *.
    rewrite flat_map_nil; [reflexivity|].
    intros [i s] Hin. apply enumerate_from_item in Hin.
    now apply segment_findings_none, Hsizes.
  - rewrite validate_coordinates_run, coordinate_findings_filter.
    fold (indexed_points r). rewrite filter_none; [reflexivity|].
    intros [[i j] p] Hin. apply indexed_points_point in Hin.
    simpl in *. now apply within_85_not_extreme, Hlats.
  - rewrite validate_timestamps_run. rewrite flat_map_nil; [reflexivity|].
    intros [i s] Hin. apply enumerate_from_item in Hin.
    now apply timestamp_findings_none, Htimes.
Qed.

Lemma good_route_fully_valid : fully_valid good_route.
Proof.
  split.
  - discriminate.
  - intros s Hs. unfold good_route in Hs. simpl in Hs.
    repeat (apply elem_of_cons in Hs as [-> | Hs]; [vm_compute; split; discriminate|]).
    inversion Hs.
  - intros p Hp. unfold good_route, all_points in Hp. simpl in Hp.
    repeat (apply elem_of_cons in Hp as [-> | Hp]; [vm_compute; reflexivity|]).
    inversion Hp.
  - intros s Hs. unfold good_route in Hs. simpl in Hs.
    apply elem_of_cons in Hs as [-> | Hs].
    + right. exists [100; 200; 350]. split; [reflexivity|]. split.
      * repeat constructor; lia.
      * apply (bool_decide_unpack _). reflexivity.
    + apply list_elem_of_singleton in Hs as ->. left. intros p Hp. simpl in Hp.
      repeat (apply elem_of_cons in Hp as [-> | Hp]; [reflexivity|]).
      inversion Hp.
Qed.

Lemma fully_valid_no_findings_witness :
  fully_valid good_route /\
  validate_segments good_route = Ok ([], good_route) /\
  validate_coordinates (fun _ => "?"%string) good_route = Ok ([], good_route) /\
  validate_timestamps good_route = Ok ([], good_route).
Proof.
  split; [exact good_route_fully_valid|].
  exact (fully_valid_no_findings (fun _ => "?"%string) good_route
           good_route_fully_valid).
Defined.


(** The store of the monad can be written: a computation that assigns
    [route.segments] ends in a different route. *)
Example set_segments_changes_route :
  set_segments [] good_route <> Ok (tt, good_route).
Proof. discriminate. Qed.

(** C6. Each validator leaves the route as it found it: the route after the
    call is the route before it, so its name, its sequence of segments and
    every field of every point are unchanged. *)
Theorem validators_leave_route_unchanged (str_float : float -> string) (r : Route) :
  (exists issues r',
      validate_segments r = Ok (issues, r') /\ r' = r /\
      name r' = name r /\ segments r' = segments r) /\
  (exists issues r',
      validate_coordinates str_float r = Ok (issues, r') /\ r' = r /\
      name r' = name r /\ segments r' = segments r) /\
  (exists issues r',
      validate_timestamps r = Ok (issues, r') /\ r' = r /\
      name r' = name r /\ segments r' = segments r).
Proof.
  repeat split; do 2 eexists; (split; [|split; [reflexivity | split; reflexivity]]).
  - apply validate_segments_run.
  - apply validate_coordinates_run.
  - apply validate_timestamps_run.
Qed.

(** ** [format_duration] *)

Lemma fold_right_constant (op : Z -> Z -> Z) (t : Z) (ts : list Z) :
  op t t = t -> (forall x, x ∈ ts -> x = t) -> fold_right op t ts = t.
Proof.
  intros Hop. induction ts as [|x ts IH]; intros Hall; simpl; [reflexivity|].
  rewrite IH by (intros y Hy; apply Hall; now right).
  rewrite (Hall x) by left. exact Hop.
Qed.

Lemma forallb_has_timestamp (pts : list GeoPoint) (t : datetime) :
  (forall p, p ∈ pts -> timestamp p = Some t) -> forallb has_timestamp pts = true.
Proof.
  intros Hall. apply forallb_forall. intros p Hp.
  apply list_elem_of_In in Hp. unfold has_timestamp. now rewrite (Hall p Hp).
Qed.

Lemma total_duration_standstill (r : Route) (t : datetime) :
  all_points r <> [] ->
  (forall p, p ∈ all_points r -> timestamp p = Some t) ->
  total_duration r = Some (mkTimedelta 0 0 0).
Proof.
  intros Hne Hall. unfold total_duration.
  rewrite (forallb_has_timestamp _ t Hall).
  assert (Hts : forall x, x ∈ omap timestamp (all_points r) -> x = t).
  { intros x Hx. apply list_elem_of_omap in Hx as (p & Hp & Hpx).
    rewrite (Hall p Hp) in Hpx. congruence. }
  destruct (all_points r) as [|p pts] eqn:E; [easy|].
  assert (Hcons : omap timestamp (p :: pts) = t :: omap timestamp pts).
  { simpl. now rewrite (Hall p) by left. }
  rewrite Hcons in *.
  assert (Htail : forall x, x ∈ omap timestamp pts -> x = t).
  { intros x Hx. apply Hts. now right. }
  rewrite (fold_right_constant Z.max t _ (Z.max_id t) Htail).
  rewrite (fold_right_constant Z.min t _ (Z.min_id t) Htail).
  now rewrite Z.sub_diag.
Qed.

Lemma total_duration_missing (r : Route) :
  (exists p, p ∈ all_points r /\ timestamp p = None) -> total_duration r = None.
Proof.
  intros (p & Hp & Hnone). unfold total_duration.
  destruct (forallb has_timestamp (all_points r)) eqn:E; [|reflexivity].
  rewrite forallb_forall in E. apply list_elem_of_In in Hp.
  specialize (E p Hp). unfold has_timestamp in E. now rewrite Hnone in E.
Qed.

(** C10. [format_duration] answers "Unknown" for no duration and for a
    duration of length zero alike; so a route all of whose timestamps are
    equal is shown with the same duration line as a route that lacks temporal
    data. *)
Theorem format_duration_unknown :
  format_duration None = "Unknown"%string /\
  format_duration (Some (mkTimedelta 0 0 0)) = "Unknown"%string /\
  (forall (r_equal r_missing : Route) (t : datetime),
      all_points r_equal <> [] ->
      (forall p, p ∈ all_points r_equal -> timestamp p = Some t) ->
      (exists p, p ∈ all_points r_missing /\ timestamp p = None) ->
      total_duration r_equal = Some (mkTimedelta 0 0 0) /\
      total_duration r_missing = None /\
      info_duration_line (total_duration r_equal)
      = info_duration_line (total_duration r_missing)).
Proof.
  split; [reflexivity|]. split; [reflexivity|].
  intros r_equal r_missing t Hne Hall Hmiss.
  rewrite (total_duration_standstill _ _ Hne Hall).
  rewrite (total_duration_missing _ Hmiss). repeat split.
Qed.

Example standstill_shown_as_unknown :
  info_duration_line (total_duration standstill_route) = "Duration: Unknown"%string /\
  info_duration_line (total_duration untimed_route) = "Duration: Unknown"%string.
Proof. split; reflexivity. Qed.

(** ** [distance] *)





(** ** The optional steps of [convert] *)

Lemma add_markers_step_returns (opts : Cli.options) (vis : Cli.visualizer) :
  exists trace,
    Cli.add_markers_step opts vis = (trace, Cli.Returns tt) /\
    (forall e,
        Cli.truthy (Cli.markers opts) = true ->
        Cli.add_distance_markers vis = Some e ->
        trace =
          [ Cli.log_info "Adding distance markers";
            Cli.call "add_distance_markers";
            Cli.log_warning ("Error adding markers: " ++ str_exn e);
            Cli.secho ("Error adding markers: " ++ str_exn e) "yellow";
            Cli.echo "Continuing without markers..." ]).
Proof.
  unfold Cli.add_markers_step.
  destruct (Cli.truthy (Cli.markers opts)).
  - destruct (Cli.add_distance_markers vis) as [e|]; simpl.
    + eexists. split; [reflexivity|]. intros e' _ [= <-]. reflexivity.
    + eexists. split; [reflexivity|]. intros e' _ [=].
  - eexists. split; [reflexivity|]. intros e' [=].
Qed.

Lemma add_overlay_step_returns (opts : Cli.options) (vis : Cli.visualizer) :
  exists trace,
    Cli.add_overlay_step opts vis = (trace, Cli.Returns tt) /\
    (Cli.truthy (Cli.overlay opts) = true ->
     Cli.log_info "Adding information overlay" ∈ trace) /\
    (forall s e,
        Cli.overlay opts = Cli.PyStr s -> s <> ""%string ->
        Cli.add_overlay vis = Some e ->
        Cli.log_warning ("Failed to add overlay: " ++ str_exn e) ∈ trace) /\
    (Cli.overlay opts = Cli.PyBool true ->
     Cli.log_warning
       "Failed to add overlay: 'bool' object has no attribute 'split'" ∈ trace).
Proof.
  unfold Cli.add_overlay_step.
  destruct (Cli.overlay opts) as [|[|]|s]; simpl.
  - eexists. split; [reflexivity|]. repeat split; intros; discriminate.
  - eexists. split; [reflexivity|]. repeat split.
    + intros _. left.
    + intros; discriminate.
    + intros _. right. left.
  - eexists. split; [reflexivity|]. repeat split; intros; discriminate.
  - destruct s as [|c s]; simpl.
    + eexists. split; [reflexivity|]. repeat split; intros; try discriminate.
      congruence.
    + destruct (Cli.add_overlay vis) as [e|]; simpl.
      * eexists. split; [reflexivity|]. repeat split.
        -- intros _. left.
        -- intros s' e' _ _ [= <-]. right. right. left.
        -- intros; discriminate.
      * eexists. split; [reflexivity|]. repeat split.
        -- intros _. left.
        -- intros; discriminate.
        -- intros; discriminate.
Qed.

(** C7. When the visualizer is created and the route is rendered, a failure
    of [add_distance_markers] or of the overlay step does not fail [convert]:
    the rendering block returns, the exception is caught and a warning is
    logged, the overlay step is still attempted after a marker failure, and
    the rest of the command (the export) runs with its own outcome. *)
Theorem optional_steps_do_not_fail (opts : Cli.options) (vis : Cli.visualizer)
    (export_and_report : Cli.IO unit) :
  Cli.RouteVisualizer vis = None ->
  Cli.create_figure vis = None ->
  Cli.render_route vis = None ->
  exists trace,
    Cli.render_block opts vis = (trace, Cli.Returns tt) /\
    Cli.call "render_route" ∈ trace /\
    (forall e,
        Cli.truthy (Cli.markers opts) = true ->
        Cli.add_distance_markers vis = Some e ->
        Cli.log_warning ("Error adding markers: " ++ str_exn e) ∈ trace /\
        Cli.secho ("Error adding markers: " ++ str_exn e) "yellow" ∈ trace /\
        Cli.echo "Continuing without markers..." ∈ trace) /\
    (Cli.truthy (Cli.overlay opts) = true ->
     Cli.log_info "Adding information overlay" ∈ trace) /\
    (forall s e,
        Cli.overlay opts = Cli.PyStr s -> s <> ""%string ->
        Cli.add_overlay vis = Some e ->
        Cli.log_warning ("Failed to add overlay: " ++ str_exn e) ∈ trace) /\
    (Cli.overlay opts = Cli.PyBool true ->
     Cli.log_warning
       "Failed to add overlay: 'bool' object has no attribute 'split'" ∈ trace) /\
    Cli.convert_from_render opts vis export_and_report
    = (trace ++ fst export_and_report, snd export_and_report).
Proof.
  intros Hinit Hfigure Hrender.
  destruct (add_markers_step_returns opts vis) as (tm & Hm & Hmarkers).
  destruct (add_overlay_step_returns opts vis) as (to & Ho & Hstart & Hfail & Hbool).
  exists ([ Cli.echo "Rendering route..."; Cli.log_info "Creating visualization";
            Cli.call "RouteVisualizer"; Cli.call "create_figure";
            Cli.log_debug "Rendering route"; Cli.call "render_route" ]
          ++ tm ++ to).
  assert (Hrun : Cli.render_block opts vis
                 = ([ Cli.echo "Rendering route...";
                      Cli.log_info "Creating visualization";
                      Cli.call "RouteVisualizer"; Cli.call "create_figure";
                      Cli.log_debug "Rendering route"; Cli.call "render_route" ]
                    ++ tm ++ to, Cli.Returns tt)).
  { unfold Cli.render_block. rewrite Hinit, Hfigure, Hrender. simpl.
    rewrite Hm. simpl. rewrite Ho. reflexivity. }
  split; [exact Hrun|]. split; [set_solver|]. split.
  { intros e He Hraise. rewrite (Hmarkers e He Hraise). set_solver. }
  split; [intros H; specialize (Hstart H); set_solver|].
  split; [intros s e Hs Hne He; specialize (Hfail s e Hs Hne He); set_solver|].
  split; [intros H; specialize (Hbool H); set_solver|].
  unfold Cli.convert_from_render. rewrite Hrun. simpl.
  now destruct export_and_report.
Qed.

Lemma optional_steps_do_not_fail_witness :
  exists trace,
    Cli.render_block all_requested failing_visualizer = (trace, Cli.Returns tt) /\
    Cli.log_warning "Error adding markers: interval must be positive" ∈ trace /\
    Cli.log_warning "Failed to add overlay: 'pace'" ∈ trace /\
    Cli.convert_from_render all_requested failing_visualizer
      (Cli.emit (Cli.echo "Exporting PNG..."))
    = (trace ++ [Cli.echo "Exporting PNG..."], Cli.Returns tt).
Proof.
  destruct (optional_steps_do_not_fail all_requested failing_visualizer
              (Cli.emit (Cli.echo "Exporting PNG..."))
              eq_refl eq_refl eq_refl)
    as (trace & Hrun & _ & Hmarkers & _ & Hoverlay & _ & Hrest).
  exists trace. split; [exact Hrun|]. split.
  - exact (proj1 (Hmarkers marker_failure eq_refl eq_refl)).
  - split; [|exact Hrest].
    apply (Hoverlay "distance,pace"%string overlay_failure eq_refl);
      [discriminate | reflexivity].
Defined.

(** ** Worked examples *)

Example sparse_route_findings :
  validate_segments sparse_route
  = Ok ([ "Segment 1 has no points"%string;
          "Segment 2 has only one point - no route data"%string ], sparse_route).
Proof. reflexivity. Qed.

Example long_segment_finding :
  validate_segments (mkRoute None [mkSegment (repeat origin (Z.to_nat 10001))])
  = Ok ([ "Segment 1 has 10001 points, which may cause performance issues"%string ],
        mkRoute None [mkSegment (repeat origin (Z.to_nat 10001))]).
Proof. vm_compute. reflexivity. Qed.

Example polar_route_findings :
  validate_coordinates (fun _ => "<lat>"%string) polar_route
  = Ok ([ "Point 2 in segment 1 has extreme latitude (<lat>) which may cause issues with map projections"%string;
          "Point 1 in segment 2 has extreme latitude (<lat>) which may cause issues with map projections"%string ],
        polar_route).
Proof. vm_compute. reflexivity. Qed.

Example backwards_route_findings :
  validate_timestamps backwards_route
  = Ok ([ "Segment 1 has out-of-order timestamps"%string ], backwards_route).
Proof. vm_compute. reflexivity. Qed.

(** A decrease across an untimestamped point is not an out-of-order pair
    for the loop; the segment is reported for its gap (and here for the
    repeated timestamp). *)
Example patchy_route_findings :
  validate_timestamps patchy_route
  = Ok ([ "Segment 1 has inconsistent timestamps (some points missing timestamp data)"%string;
          "Segment 1 has duplicate timestamps"%string ], patchy_route).
Proof. vm_compute. reflexivity. Qed.

Example format_duration_samples :
  format_duration (Some (mkTimedelta 1 3725 0)) = "1 day, 1 hour, 2 minutes"%string /\
  format_duration (Some (mkTimedelta 0 59 0)) = "59 seconds"%string /\
  format_duration (Some (mkTimedelta 2 0 0)) = "2 days"%string /\
  format_duration (Some (timedelta_of_microseconds 1800000000)) = "30 minutes"%string.
Proof. repeat split. Qed.

(** * Further properties of the validators *)

Lemma flat_map_nil_inv {A B} (f : A -> list B) (xs : list A) :
  flat_map f xs = [] -> forall x, x ∈ xs -> f x = [].
Proof.
  induction xs as [|y xs IH]; intros Hnil x Hx; [inversion Hx|].
  simpl in Hnil. apply app_eq_nil in Hnil as [Hy Hxs].
  apply elem_of_cons in Hx as [-> | Hx]; auto.
Qed.



Lemma segment_findings_nil_inv (i : Z) (s : Segment) :
  segment_findings (i, s) = [] -> 2 <= len (points s) <= 10000.
Proof.
  simpl. destruct (points s) as [|p ps]; [discriminate|].
  set (n := len (p :: ps)).
  destruct (n <? 2) eqn:E2; [discriminate|].
  destruct (10000 <? n) eqn:Ebig; [discriminate|].
  intros _. apply Z.ltb_ge in E2, Ebig. lia.
Qed.

Lemma findings_nil_iff {A} (f : Z * A -> list string) (P : A -> Prop)
    (xs : list A) :
  (forall i x, f (i, x) = [] <-> P x) ->
  (flat_map f (enumerate xs) = [] <-> forall x, x ∈ xs -> P x).
Proof.
  intros Hf. split.
  - intros Hnil x Hx. apply list_elem_of_lookup_1 in Hx as [i Hi].
    apply (Hf (Z.of_nat i)). apply (flat_map_nil_inv _ _ Hnil).
    now apply enumerate_lookup.
  - intros Hall. apply flat_map_nil. intros [i x] Hin.
    apply enumerate_from_item in Hin. apply Hf. auto.
Qed.

Lemma segment_findings_nil_iff (i : Z) (s : Segment) :
  segment_findings (i, s) = [] <-> 2 <= len (points s) <= 10000.
Proof. split; [apply segment_findings_nil_inv | apply segment_findings_none]. Qed.

(** X1. [validate_segments] returns the empty list exactly for the routes
    that have a segment and whose segments all have 2 to 10000 points. *)
Theorem validate_segments_clean_iff (r : Route) :
  validate_segments r = Ok ([], r) <->
  segments r <> [] /\
  (forall s, s ∈ segments r -> 2 <= len (points s) <= 10000).
Proof.
  rewrite validate_segments_run.
  pose proof (findings_nil_iff segment_findings _ (segments r)
                segment_findings_nil_iff) as Hiff.
  destruct (segments r) as [|s0 segs] eqn:E.
  - split; [discriminate | intros [Hne _]; now destruct Hne].
  - rewrite <- Hiff. split.
    + intros [= Hnil]. split; [discriminate | exact Hnil].
    + intros [_ Hnil]. now rewrite Hnil.
Qed.







Lemma string_app_inv_head (a x y : string) :
  (a ++ x)%string = (a ++ y)%string -> x = y.
Proof.
  induction a as [|c a IH]; simpl; intros H; [exact H|].
  injection H as H. auto.
Qed.





Lemma all_present_map (pts : list GeoPoint) :
  existsb timestamp_is_none pts = false ->
  exists ts, map timestamp pts = map Some ts.
Proof.
  induction pts as [|p pts IH]; intros Hnone; [now exists []|].
  simpl in Hnone. apply orb_false_iff in Hnone as [Hp Hrest].
  destruct (IH Hrest) as [ts Hts]. unfold timestamp_is_none in Hp.
  destruct (timestamp p) as [t|] eqn:Ep; [|discriminate].
  exists (t :: ts). simpl. now rewrite Ep, Hts.
Qed.

Lemma StronglySorted_pairwise (ts : list Z) :
  (forall (j k : nat) t1 t2,
      (j < k)%nat -> ts !! j = Some t1 -> ts !! k = Some t2 -> t1 < t2) ->
  StronglySorted Z.lt ts.
Proof.
  induction ts as [|t ts IH]; intros Hpair; constructor.
  - apply IH. intros j k t1 t2 Hjk H1 H2.
    apply (Hpair (S j) (S k) t1 t2); [lia | exact H1 | exact H2].
  - apply Forall_forall. intros x Hx.
    apply list_elem_of_lookup_1 in Hx as [k Hk].
    apply (Hpair 0%nat (S k) t x); [lia | reflexivity | exact Hk].
Qed.

Lemma map_Some_lookup (pts : list GeoPoint) (ts : list datetime) :
  map timestamp pts = map Some ts ->
  forall (j : nat) t, ts !! j = Some t ->
                      exists p, pts !! j = Some p /\ timestamp p = Some t.
Proof.
  intros Hmap j t Hj.
  assert (H : (map timestamp pts) !! j = Some (Some t)).
  { rewrite Hmap. change (map Some ts) with (Some <$> ts).
    now rewrite list_lookup_fmap, Hj. }
  change (map timestamp pts) with (timestamp <$> pts) in H.
  rewrite list_lookup_fmap in H.
  destruct (pts !! j) as [p|]; [|discriminate].
  exists p. split; [reflexivity|]. simpl in H. congruence.
Qed.

Lemma timestamp_findings_nil_inv (i : Z) (s : Segment) :
  timestamp_findings (i, s) = [] -> timestamps_in_order s.
Proof.
  cbn [timestamp_findings].
  destruct (existsb has_timestamp (points s)) eqn:Eany.
  - intros Hnil. apply app_eq_nil in Hnil as [Ha Hnil].
    apply app_eq_nil in Hnil as [Hb Hc].
    destruct (existsb timestamp_is_none (points s)) eqn:Enone; [discriminate|].
    destruct (decreasing_pair (points s)) eqn:Edec; [discriminate|].
    destruct (has_duplicates (omap timestamp (points s))) eqn:Edup; [discriminate|].
    right. destruct (all_present_map _ Enone) as [ts Hts]. exists ts.
    assert (Hnd : NoDup ts).
    { rewrite (all_present_omap _ _ Hts) in Edup.
      destruct (decide (NoDup ts)) as [Hnd | Hnd]; [exact Hnd|].
      apply has_duplicates_spec in Hnd. congruence. }
    split; [exact Hts|]. split; [|exact Hnd].
    apply StronglySorted_pairwise. intros j k t1 t2 Hjk H1 H2.
    destruct (map_Some_lookup _ _ Hts j t1 H1) as (p & Hp & Htp).
    destruct (map_Some_lookup _ _ Hts k t2 H2) as (q & Hq & Htq).
    pose proof (no_decrease_anywhere _ Enone Edec j k p q t1 t2 Hjk Hp Hq Htp Htq).
    assert (t1 <> t2).
    { intros ->. pose proof (NoDup_lookup _ _ _ _ Hnd H1 H2). lia. }
    lia.
  - intros _. left. intros p Hp.
    destruct (timestamp p) as [t|] eqn:Et; [|reflexivity].
    rewrite (existsb_has_timestamp _ p Hp) in Eany by congruence. discriminate.
Qed.

Lemma timestamp_findings_nil_iff (i : Z) (s : Segment) :
  timestamp_findings (i, s) = [] <-> timestamps_in_order s.
Proof.
  split; [apply timestamp_findings_nil_inv | apply timestamp_findings_none].
Qed.

(** X4. [validate_timestamps] returns the empty list exactly when every
    segment either has no timestamp at all or has one on every point and the
    timestamps strictly increase along the segment. *)
Theorem validate_timestamps_clean_iff (r : Route) :
  validate_timestamps r = Ok ([], r) <->
  (forall s, s ∈ segments r -> timestamps_in_order s).
Proof.
  rewrite validate_timestamps_run.
  rewrite <- (findings_nil_iff timestamp_findings _ (segments r)
                timestamp_findings_nil_iff).
  split; [now intros [= ->] | now intros ->].
Qed.

(** * Further properties of [format_duration] *)

Lemma str_int_head (n : Z) :
  exists c rest, str_int n = String c rest /\ c <> "U"%char.
Proof.
  unfold str_int. destruct (Z.to_int n) as [u|u]; simpl.
  - destruct u; simpl; eexists _, _; (split; [reflexivity | discriminate]).
  - eexists _, _. split; [reflexivity | discriminate].
Qed.

Lemma join_head (sep : string) (c : ascii) (rest : string) (parts : list string) :
  exists rest', join sep (String c rest :: parts) = String c rest'.
Proof.
  unfold join. destruct parts as [|p parts]; simpl; eauto.
Qed.

Lemma timedelta_falsy_iff (d : timedelta) :
  timedelta_truthy d = false <-> d = mkTimedelta 0 0 0.
Proof.
  destruct d as [dd ss us]. unfold timedelta_truthy. simpl.
  rewrite negb_false_iff, !andb_true_iff, !Z.eqb_eq. split.
  - intros [[-> ->] ->]. reflexivity.
  - intros [= -> -> ->]. auto.
Qed.

Ltac expose_heads :=
  repeat match goal with
         | |- context [str_int ?n] =>
             let c := fresh "c" in
             let rest := fresh "rest" in
             let E := fresh "E" in
             let Hc := fresh "Hc" in
             destruct (str_int_head n) as (c & rest & E & Hc);
             rewrite !E
         end.

Lemma format_duration_shape (d : timedelta) :
  timedelta_truthy d = true ->
  format_duration (Some d) = ""%string \/
  exists c rest, format_duration (Some d) = String c rest /\ c <> "U"%char.
Proof.
  intros Ht. unfold format_duration. rewrite Ht. cbn [negb].
  unfold divmod. cbv zeta.
  destruct (int_truthy (days d)), (int_truthy (seconds d / 3600)),
    (int_truthy (seconds d mod 3600 / 60)), (int_truthy (seconds d mod 3600 mod 60));
    cbn [andb orb negb append app].
  all: try (left; reflexivity).
  all: right; expose_heads; cbn [String.append].
  all: try match goal with
           | |- context [join ?sep (String ?c ?r :: ?ps)] =>
               destruct (join_head sep c r ps) as [rest' ->]
           end.
  all: eauto.
Qed.

(** X5. [format_duration] answers "Unknown" only for a missing duration and
    for the zero duration; every other duration gets a different text. *)
Theorem format_duration_unknown_iff (duration : option timedelta) :
  format_duration duration = "Unknown"%string <->
  duration = None \/ duration = Some (mkTimedelta 0 0 0).
Proof.
  split.
  - destruct duration as [d|]; [|auto]. intros H. right. f_equal.
    apply timedelta_falsy_iff.
    destruct (timedelta_truthy d) eqn:Ht; [|reflexivity].
    destruct (format_duration_shape d Ht) as [E | (c & rest & E & Hc)];
      rewrite E in H; [discriminate|].
    injection H as -> _. contradiction.
  - intros [-> | ->]; reflexivity.
Qed.

Lemma int_truthy_false_iff (n : Z) : int_truthy n = false <-> n = 0.
Proof. unfold int_truthy. rewrite negb_false_iff. apply Z.eqb_eq. Qed.

Lemma int_truthy_true_iff (n : Z) : int_truthy n = true <-> n <> 0.
Proof. unfold int_truthy. rewrite negb_true_iff. apply Z.eqb_neq. Qed.

(** X6. A duration is rendered as the empty string exactly when it is not
    zero but shorter than a second (no days, no seconds, some microseconds):
    such a duration is shown neither as "Unknown" nor with any unit. *)
Theorem format_duration_empty_iff (d : timedelta) :
  format_duration (Some d) = ""%string <->
  days d = 0 /\ seconds d = 0 /\ microseconds d <> 0.
Proof.
  split.
  - intros H. destruct (timedelta_truthy d) eqn:Ht.
    2:{ unfold format_duration in H. rewrite Ht in H. discriminate. }
    revert H. unfold format_duration. rewrite Ht. cbn [negb].
    unfold divmod. cbv zeta.
    destruct (int_truthy (days d)) eqn:Ed,
      (int_truthy (seconds d / 3600)) eqn:Eh,
      (int_truthy (seconds d mod 3600 / 60)) eqn:Em,
      (int_truthy (seconds d mod 3600 mod 60)) eqn:Es;
      cbn [andb orb negb append app].
    all: try (expose_heads;
              repeat match goal with
                     | |- context [(String ?c ?r ++ ?x)%string] =>
                         change (String c r ++ x)%string
                           with (String c (r ++ x)%string)
                     end;
              match goal with
              | |- context [join ?sep (String ?c ?r :: ?ps)] =>
                  destruct (join_head sep c r ps) as [rest' ->]
              end; intros Hbad; discriminate Hbad).
    intros _.
    apply int_truthy_false_iff in Ed, Eh, Em, Es.
    assert (Hs : seconds d = 0).
    { pose proof (Z.div_mod (seconds d) 3600).
      pose proof (Z.div_mod (seconds d mod 3600) 60). lia. }
    repeat split; auto.
    intros Hus. destruct d as [dd ss us]. simpl in *. subst.
    discriminate Ht.
  - intros (Hd & Hs & Hus). destruct d as [dd ss us]. simpl in *. subst.
    unfold format_duration, timedelta_truthy. simpl.
    apply Z.eqb_neq in Hus. rewrite Hus. reflexivity.
Qed.

Lemma whole_hours (s : Z) : s / 3600 = s / 60 / 60.
Proof. now rewrite Z.div_div by lia. Qed.

Lemma whole_minutes (s : Z) : s mod 3600 / 60 = (s / 60) mod 60.
Proof.
  change 3600 with (60 * 60). rewrite Z.rem_mul_r by lia.
  pose proof (Z.mod_pos_bound s 60).
  rewrite Z.mul_comm, Z.div_add by lia.
  rewrite (Z.div_small (s mod 60)) by lia. lia.
Qed.

(** X7. Once a duration has a day or an hour to show, its seconds and
    microseconds are not shown: two durations with the same days and the same
    number of whole minutes are rendered alike. *)
Theorem format_duration_hides_seconds (d s us s2 us2 : Z) :
  d <> 0 \/ s / 3600 <> 0 ->
  s / 60 = s2 / 60 ->
  format_duration (Some (mkTimedelta d s us))
  = format_duration (Some (mkTimedelta d s2 us2)).
Proof.
  intros Hbig Hmin.
  assert (Hh : s2 / 3600 = s / 3600) by (rewrite !whole_hours; congruence).
  assert (Hm : s2 mod 3600 / 60 = s mod 3600 / 60)
    by (rewrite !whole_minutes; congruence).
  assert (Ht : forall x y, (d <> 0 \/ x / 3600 <> 0) ->
                           timedelta_truthy (mkTimedelta d x y) = true).
  { intros x y Hx. unfold timedelta_truthy. simpl.
    apply negb_true_iff. destruct (d =? 0) eqn:Ed; [|reflexivity].
    destruct (x =? 0) eqn:Ex; [|reflexivity].
    apply Z.eqb_eq in Ed, Ex. subst. simpl in Hx. destruct Hx; easy. }
  unfold format_duration.
  rewrite (Ht s us Hbig), (Ht s2 us2) by (rewrite Hh; exact Hbig).
  cbn [negb days seconds microseconds]. unfold divmod. cbv zeta.
  rewrite Hh, Hm.
  assert (Hor : int_truthy d || int_truthy (s / 3600) = true).
  { apply orb_true_iff. rewrite !int_truthy_true_iff. exact Hbig. }
  rewrite Hor. cbn [negb]. rewrite !andb_false_r. reflexivity.
Qed.

Lemma format_duration_hides_seconds_witness :
  format_duration (Some (mkTimedelta 0 3600 0))
  = format_duration (Some (mkTimedelta 0 3659 999999)).
Proof.
  apply (format_duration_hides_seconds 0 3600 0 3659 999999).
  - right. discriminate.
  - reflexivity.
Defined.

(** * The [validate] command *)





Lemma for_each_do_echo (issues : list string) :
  Commands.for_each_do issues (fun issue => Cli.emit (Cli.echo ("- " ++ issue)))
  = (map (fun issue => Cli.echo ("- " ++ issue)) issues, Cli.Returns tt).
Proof.
  induction issues as [|x issues IH]; [reflexivity|].
  simpl. rewrite IH. reflexivity.
Qed.

Lemma show_issues_trace (title : string) (issues : list string) :
  exists trace,
    Commands.show_issues title issues = (trace, Cli.Returns tt) /\
    (forall issue, issue ∈ issues -> Cli.echo ("- " ++ issue) ∈ trace).
Proof.
  destruct issues as [|x issues]; [exists []; split; [reflexivity|]; intros ? H; inversion H|].
  unfold Commands.show_issues. rewrite for_each_do_echo.
  eexists. split; [reflexivity|].
  intros issue Hin. right.
  apply (list_elem_of_fmap_2 (fun issue => Cli.echo ("- " ++ issue))) in Hin.
  exact Hin.
Qed.

Lemma validate_on_route (str_float : float -> string) (shown_path : string)
    (route : Route) :
  let segment_issues :=
    match segments route with
    | [] => [msg_no_segments]
    | _ :: _ => flat_map segment_findings (enumerate (segments route))
    end in
  let coordinate_issues :=
    flat_map (coordinate_findings str_float) (enumerate (segments route)) in
  let timestamp_issues :=
    flat_map timestamp_findings (enumerate (segments route)) in
  let all_issues := segment_issues ++ coordinate_issues ++ timestamp_issues in
  exists trace,
    Commands.validate str_float shown_path (Commands.ParseData (Ok route))
    = (trace, Cli.Exits (match all_issues with [] => 0 | _ :: _ => 1 end)) /\
    match all_issues with
    | [] => Cli.echo "No issues found" ∈ trace
    | _ :: _ =>
        Cli.secho (Commands.nl ++ "✗ Found " ++ str_int (len all_issues)
                   ++ " issues in route data:") "red" ∈ trace /\
        (forall issue, issue ∈ all_issues -> Cli.echo ("- " ++ issue) ∈ trace)
    end.
Proof.
  intros segment_issues coordinate_issues timestamp_issues all_issues.
  unfold Commands.validate, Commands.run.
  cbn [Cli.bind Cli.ret Cli.emit app].
  rewrite validate_segments_run. fold segment_issues.
  cbn [Cli.bind Cli.ret app].
  rewrite validate_coordinates_run. fold coordinate_issues.
  cbn [Cli.bind Cli.ret app].
  rewrite validate_timestamps_run. fold timestamp_issues.
  cbn [Cli.bind Cli.ret app]. fold all_issues.
  destruct all_issues as [|x rest] eqn:Eall.
  - eexists. split; [reflexivity|]. repeat first [left | right].
  - rewrite <- Eall.
    destruct (show_issues_trace "Segment Issues:" segment_issues) as (t1 & E1 & H1).
    destruct (show_issues_trace "Coordinate Issues:" coordinate_issues) as (t2 & E2 & H2).
    destruct (show_issues_trace "Timestamp Issues:" timestamp_issues) as (t3 & E3 & H3).
    cbn [Cli.bind Cli.emit app]. rewrite E1. cbn [Cli.bind app].
    rewrite E2. cbn [Cli.bind app]. rewrite E3. cbn [Cli.bind Commands.sys_exit app].
    eexists. split; [reflexivity|]. split.
    + right. right. left.
    + intros issue Hin. subst all_issues.
      apply elem_of_app in Hin as [Hin | Hin];
        [|apply elem_of_app in Hin as [Hin | Hin]].
      * specialize (H1 issue Hin).
        rewrite ?elem_of_cons, ?elem_of_app. tauto.
      * specialize (H2 issue Hin).
        rewrite ?elem_of_cons, ?elem_of_app. tauto.
      * specialize (H3 issue Hin).
        rewrite ?elem_of_cons, ?elem_of_app. tauto.
Qed.


(** X9. When the validators find something, [validate] announces the total
    number of findings of the three validators and echoes every one of them
    as a line ["- <finding>"]; when they find nothing it says so. *)
Theorem validate_shows_every_finding (str_float : float -> string)
    (shown_path : string) (route : Route) :
  exists trace code segment_issues coordinate_issues timestamp_issues,
    validate_segments route = Ok (segment_issues, route) /\
    validate_coordinates str_float route = Ok (coordinate_issues, route) /\
    validate_timestamps route = Ok (timestamp_issues, route) /\
    Commands.validate str_float shown_path (Commands.ParseData (Ok route))
    = (trace, Cli.Exits code) /\
    let all_issues := segment_issues ++ coordinate_issues ++ timestamp_issues in
    (all_issues = [] -> Cli.echo "No issues found" ∈ trace) /\
    (all_issues <> [] ->
     Cli.secho (Commands.nl ++ "✗ Found " ++ str_int (len all_issues)
                ++ " issues in route data:") "red" ∈ trace) /\
    (forall issue, issue ∈ all_issues -> Cli.echo ("- " ++ issue) ∈ trace).
Proof.
  destruct (validate_on_route str_float shown_path route) as (trace & Hrun & Hshown).
  cbv zeta in Hrun, Hshown.
  eexists trace, _, _, _, _.
  split; [apply validate_segments_run|].
  split; [apply validate_coordinates_run|].
  split; [apply validate_timestamps_run|].
  split; [exact Hrun|]. cbv zeta.
  destruct (_ ++ _ ++ _) as [|x rest].
  - repeat split; auto; try easy.
  - destruct Hshown as [Hcount Heach]. repeat split; auto; easy.
Qed.

(** * [handle_command_errors] and the stages of [convert] *)


Lemma len_zero_iff {A} (xs : list A) : int_truthy (len xs) = false <-> xs = [].
Proof. rewrite int_truthy_false_iff. apply len_nil_iff. Qed.

Lemma parse_stage_outcome (classes : Commands.exception_classes)
    (errors : Commands.parse_errors) (parser : Commands.parser_behaviour) :
  exists t o,
    Commands.parse_stage classes errors parser = (t, o) /\
    match o with
    | Cli.Returns r =>
        parser = Commands.ParseData (Ok r) /\ segments r <> [] /\ all_points r <> []
    | Cli.Raises e =>
        (forall r, parser = Commands.ParseData (Ok r) ->
                   segments r = [] \/ all_points r = []) /\
        ((forall msg, Commands.is_RouteArtError classes
                        (Commands.invalid_route_file errors msg) = true) ->
         Commands.is_RouteArtError classes e = true)
    | Cli.Exits _ => False
    end.
Proof.
  unfold Commands.parse_stage.
  assert (Hraise : forall e0,
             exists e,
               (if negb (Commands.is_RouteArtError classes e0)
                then Cli.raise (Commands.invalid_route_file errors (str_exn e0))
                else Cli.raise e0)
               = (([] : list Cli.event), Cli.Raises e : Cli.outcome Route) /\
               ((forall msg, Commands.is_RouteArtError classes
                               (Commands.invalid_route_file errors msg) = true) ->
                Commands.is_RouteArtError classes e = true)).
  { intros e0. destruct (Commands.is_RouteArtError classes e0) eqn:E; simpl; eauto. }
  destruct parser as [e0 | msg | [r | e0]]; cbn [Cli.bind Cli.emit Cli.raise Cli.ret Cli.try_except app].
  - destruct (Hraise e0) as (e & -> & He). eexists _, _. split; [reflexivity|].
    split; [discriminate | exact He].
  - destruct (Hraise (Commands.invalid_route_file errors msg)) as (e & -> & He).
    eexists _, _. split; [reflexivity|]. split; [discriminate | exact He].
  - destruct (segments r) as [|s0 segs] eqn:Es.
    + cbn [Cli.bind Cli.raise Cli.try_except app].
      destruct (Hraise (Commands.missing_track errors)) as (e & -> & He).
      eexists _, _. split; [reflexivity|].
      split; [intros r' [= <-]; auto | exact He].
    + unfold Commands.get_total_points.
      destruct (int_truthy (len (all_points r))) eqn:Ep;
        cbn [negb Cli.bind Cli.raise Cli.ret Cli.try_except app].
      * eexists _, _. split; [reflexivity|]. repeat split; [congruence|].
        intros Hnil. apply len_zero_iff in Hnil. congruence.
      * destruct (Hraise (Commands.no_coordinates errors)) as (e & -> & He).
        eexists _, _. split; [reflexivity|].
        split; [|exact He]. intros r' [= <-]. right. now apply len_zero_iff.
  - cbn [Cli.bind Cli.raise Cli.try_except app].
    destruct (Hraise e0) as (e & -> & He). eexists _, _. split; [reflexivity|].
    split; [discriminate | exact He].
Qed.


(** X12. If the [RouteParseError] that [invalid_route_file] builds is a
    [RouteArtError], then every exception that leaves the parsing stage is a
    [RouteArtError]: foreign exceptions are wrapped before they escape. *)
Theorem parse_stage_raises_route_art_errors (classes : Commands.exception_classes)
    (errors : Commands.parse_errors) (parser : Commands.parser_behaviour)
    (t : list Cli.event) (e : exn) :
  (forall msg, Commands.is_RouteArtError classes
                 (Commands.invalid_route_file errors msg) = true) ->
  Commands.parse_stage classes errors parser = (t, Cli.Raises e) ->
  Commands.is_RouteArtError classes e = true.
Proof.
  intros Hwrap Hrun.
  destruct (parse_stage_outcome classes errors parser) as (t' & o & Hrun' & Ho).
  rewrite Hrun in Hrun'. injection Hrun' as <- <-. now apply Ho.
Qed.

Lemma parse_stage_raises_route_art_errors_witness :
  Commands.is_RouteArtError sample_classes
    (Exception (OtherException "RouteParseError") "Invalid route file: 'pace'")
  = true.
Proof.
  apply (parse_stage_raises_route_art_errors sample_classes sample_errors
           (Commands.ParserRaises overlay_failure)
           [Cli.echo "Parsing route data from GPX-format file..."]).
  - intros msg. reflexivity.
  - reflexivity.
Defined.


Lemma export_stage_outcome (classes : Commands.exception_classes)
    (formats : option string) (format_list : list string) (ex : Commands.exporter) :
  exists t o,
    Commands.export_stage classes formats format_list ex = (t, o) /\
    let ready :=
      Commands.Exporter_init ex = None /\ Commands.str_truthy formats = true /\
      Commands.export_multiple ex = None in
    match o with
    | Cli.Returns _ => ready
    | Cli.Raises e => ~ ready
    | Cli.Exits code => code = 1 /\ ~ ready
    end.
Proof.
  unfold Commands.export_stage.
  destruct (Commands.Exporter_init ex) as [e0|] eqn:E0;
    cbn [Cli.bind Cli.invoke app].
  { eexists _, _. split; [reflexivity|]. simpl. intros (H & _). discriminate. }
  destruct (Commands.str_truthy formats) eqn:Ef.
  - destruct (Commands.export_multiple ex) as [e|] eqn:Ee;
      cbn [Cli.bind Cli.emit Cli.invoke Commands.try_except_when app].
    + destruct (Commands.is_ExportError classes e);
        eexists _, _; (split; [reflexivity|]); simpl;
        try (split; [reflexivity|]); intros (H0 & H1 & H2); discriminate.
    + eexists _, _. split; [reflexivity|]. simpl. auto.
  - destruct (Commands.get_format ex) as [shown | e];
      cbn [Cli.bind Cli.emit Cli.ret Cli.raise Commands.try_except_when app].
    + destruct (Commands.is_ExportError classes Commands.ExportFormat_unbound);
        eexists _, _; (split; [reflexivity|]); simpl;
        try (split; [reflexivity|]); intros (H0 & H1 & H2); discriminate.
    + destruct (Commands.is_ExportError classes e);
        eexists _, _; (split; [reflexivity|]); simpl;
        try (split; [reflexivity|]); intros (H0 & H1 & H2); discriminate.
Qed.

Lemma report_stage_outcome (str_float : float -> string) (args : Commands.cli_args) :
  exists t o,
    Commands.report_stage str_float args = (t, o) /\
    match o with
    | Cli.Returns _ => Commands.color args <> None
    | Cli.Raises e => Commands.color args = None /\ exn_class_of e = AttributeError
    | Cli.Exits _ => False
    end.
Proof.
  unfold Commands.report_stage, Commands.startswith_hash.
  destruct (Commands.color args) as [c|].
  - cbn [Cli.bind Cli.ret app].
    destruct (Cli.truthy (Commands.markers args)),
      (Commands.str_truthy (Commands.overlay args));
      cbn [Cli.bind Cli.ret Cli.emit app];
      eexists _, _; (split; [reflexivity|]); discriminate.
  - eexists _, _. split; [reflexivity|]. split; reflexivity.
Qed.

(** X13. Without a [--format] argument the export stage never completes:
    [main.py] does not bind the name [ExportFormat], so once [get_format] has
    answered the stage raises [NameError] before any export call; in every
    case the stage ends by raising or by [sys.exit(1)]. *)
Theorem export_without_format_fails (classes : Commands.exception_classes)
    (formats : option string) (format_list : list string) (ex : Commands.exporter) :
  Commands.str_truthy formats = false ->
  (forall t, Commands.export_stage classes formats format_list ex
             <> (t, Cli.Returns tt)) /\
  (forall shown,
      Commands.Exporter_init ex = None ->
      Commands.get_format ex = Ok shown ->
      Commands.is_ExportError classes Commands.ExportFormat_unbound = false ->
      Commands.export_stage classes formats format_list ex
      = ([Cli.call "Exporter"; Cli.call "get_format";
          Cli.echo ("Exporting " ++ shown ++ "...")],
         Cli.Raises Commands.ExportFormat_unbound)).
Proof.
  intros Hf. split.
  - intros t Hrun.
    destruct (export_stage_outcome classes formats format_list ex)
      as (t' & o & Hrun' & Ho).
    rewrite Hrun in Hrun'. injection Hrun' as <- <-.
    destruct Ho as (_ & Ho & _). congruence.
  - intros shown Hinit Hshown Hclass. unfold Commands.export_stage.
    rewrite Hinit, Hf, Hshown.
    cbn [Cli.bind Cli.emit Cli.ret Cli.raise Cli.invoke
           Commands.try_except_when app].
    now rewrite Hclass.
Qed.

Lemma export_without_format_fails_witness :
  Commands.export_stage sample_classes None []
    (Commands.mkExporter None None (Ok "PNG"%string))
  = ([Cli.call "Exporter"; Cli.call "get_format"; Cli.echo "Exporting PNG..."],
     Cli.Raises Commands.ExportFormat_unbound).
Proof.
  exact (proj2 (export_without_format_fails sample_classes None []
                  (Commands.mkExporter None None (Ok "PNG"%string)) eq_refl)
           "PNG"%string eq_refl eq_refl eq_refl).
Defined.

(** X14. The summary at the end of [convert] completes exactly when
    [--color] was given on the command line: with [color] left at [None] the
    call [color.startswith('#')] raises [AttributeError]. *)
Theorem report_stage_needs_color (str_float : float -> string)
    (args : Commands.cli_args) :
  ((exists t, Commands.report_stage str_float args = (t, Cli.Returns tt)) <->
   Commands.color args <> None) /\
  (Commands.color args = None ->
   exists e, Commands.report_stage str_float args = ([], Cli.Raises e) /\
             exn_class_of e = AttributeError).
Proof.
  destruct (report_stage_outcome str_float args) as (t & o & Hrun & Ho). split.
  - split.
    + intros [t' Hret]. rewrite Hret in Hrun. injection Hrun as <- <-. exact Ho.
    + intros Hc. destruct o as [[] | e | c]; [eauto | | contradiction].
      destruct Ho as [Ho _]. contradiction.
  - intros Hc. unfold Commands.report_stage, Commands.startswith_hash.
    rewrite Hc. eexists. split; reflexivity.
Qed.




(** * [get_config] and [get_effective_options] *)

(** X16. A successful [get_config] never returns [None] and leaves the
    module-level [_config] equal to what it returned; a later call without a
    path returns that same configuration without constructing anything,
    whatever the constructor would do. *)
Theorem get_config_caches (load load' : option string -> result Options.Config)
    (config_path : option string) (_config : option Options.Config)
    (returned : option Options.Config) (_config' : option Options.Config) :
  Options.get_config load config_path _config = (Ok returned, _config') ->
  (exists c, returned = Some c) /\
  _config' = returned /\
  Options.get_config load' None _config' = (Ok returned, _config') /\
  Options.get_config load' (Some ""%string) _config' = (Ok returned, _config').
Proof.
  unfold Options.get_config. intros Hrun.
  assert (H : (exists c, returned = Some c) /\ _config' = returned).
  { destruct _config as [c0|]; simpl in Hrun.
    - destruct (Commands.str_truthy config_path).
      + destruct (load config_path) as [c|e]; [|discriminate].
        injection Hrun as <- <-. eauto.
      + injection Hrun as <- <-. eauto.
    - destruct (load config_path) as [c|e]; [|discriminate].
      injection Hrun as <- <-. eauto. }
  destruct H as [[c ->] ->]. repeat split; eauto.
Qed.

Lemma get_config_caches_witness :
  Options.get_config (fun _ => Raise marker_failure) None (Some sample_config)
  = (Ok (Some sample_config), Some sample_config).
Proof.
  exact (proj1 (proj2 (proj2
           (get_config_caches (fun _ => Ok sample_config)
              (fun _ => Raise marker_failure)
              (Some "routes.yml"%string) None
              (Some sample_config) (Some sample_config) eq_refl)))).
Defined.

Lemma dict_get_set_eq (d : Options.dict) (k : string) (v : Options.value) :
  Options.dict_get (Options.dict_set d k v) k = Some v.
Proof.
  induction d as [|[k' v'] d IH]; simpl.
  - now rewrite String.eqb_refl.
  - destruct (String.eqb k' k) eqn:E; simpl; rewrite E; auto.
Qed.

Lemma dict_get_set_ne (d : Options.dict) (k k0 : string) (v : Options.value) :
  k <> k0 -> Options.dict_get (Options.dict_set d k v) k0 = Options.dict_get d k0.
Proof.
  intros Hne. induction d as [|[k' v'] d IH]; simpl.
  - apply String.eqb_neq in Hne. now rewrite Hne.
  - destruct (String.eqb k' k) eqn:E; simpl.
    + apply String.eqb_eq in E. subst k'.
      apply String.eqb_neq in Hne. now rewrite Hne.
    + now rewrite IH.
Qed.

Lemma dict_get_elem (d : Options.dict) (k : string) (v : Options.value) :
  NoDup (map fst d) -> (k, v) ∈ d -> Options.dict_get d k = Some v.
Proof.
  induction d as [|[k' v'] d IH]; intros Hnd Hin; [inversion Hin|].
  simpl in Hnd. apply NoDup_cons in Hnd as [Hnin Hnd]. simpl.
  apply elem_of_cons in Hin as [[= -> ->] | Hin].
  - now rewrite String.eqb_refl.
  - destruct (String.eqb k' k) eqn:E; [|auto].
    apply String.eqb_eq in E. subst. exfalso. apply Hnin.
    apply (list_elem_of_fmap_2 fst) in Hin. exact Hin.
Qed.

Lemma override_preserves (items : Options.dict) :
  forall (result : Options.dict) (k : string),
    (forall v, (k, v) ∈ items -> v = Options.VNone) ->
    Options.dict_get (Options.override_with_cli items result) k
    = Options.dict_get result k.
Proof.
  induction items as [|[k0 v0] items IH]; intros result k Hnone; [reflexivity|].
  simpl. rewrite IH by (intros v Hv; apply Hnone; now right).
  destruct (Options.is_None v0) eqn:E0; [reflexivity|].
  apply dict_get_set_ne. intros ->.
  rewrite (Hnone v0) in E0 by left. discriminate.
Qed.

Lemma override_sets (items : Options.dict) :
  forall (result : Options.dict) (k : string) (v : Options.value),
    NoDup (map fst items) ->
    Options.dict_get items k = Some v -> v <> Options.VNone ->
    Options.dict_get (Options.override_with_cli items result) k = Some v.
Proof.
  induction items as [|[k0 v0] items IH]; intros result k v Hnd Hget Hv;
    [discriminate|].
  simpl in Hnd. apply NoDup_cons in Hnd as [Hnin Hnd]. simpl in *.
  destruct (String.eqb k0 k) eqn:E.
  - apply String.eqb_eq in E. subst k0. injection Hget as ->.
    rewrite override_preserves.
    + destruct v; [now destruct Hv | ..]; simpl; apply dict_get_set_eq.
    + intros v' Hin. exfalso. apply Hnin.
      apply (list_elem_of_fmap_2 fst) in Hin. exact Hin.
  - now apply IH.
Qed.

(** X17. Command-line options win: every option that the command line set to
    something other than [None] has exactly that value in the result of
    [get_effective_options], whatever the configuration says. *)
Theorem cli_options_take_precedence (config : Options.Config)
    (option_dict merged : Options.dict) (k : string) (v : Options.value) :
  NoDup (map fst option_dict) ->
  Options.get_effective_options config option_dict = Ok merged ->
  Options.dict_get option_dict k = Some v ->
  v <> Options.VNone ->
  Options.dict_get merged k = Some v.
Proof.
  intros Hnd Hrun Hget Hv. unfold Options.get_effective_options in Hrun.
  destruct (Options.merge_config _ _ _ _) as [result|e]; [|discriminate].
  injection Hrun as <-. now apply override_sets.
Qed.

Lemma cli_options_take_precedence_witness :
  Options.dict_get
    [ ("markers", Options.VBool false); ("thickness", Options.VStr "thin");
      ("overlay", Options.VBool true); ("formats", Options.VStr "png,svg");
      ("color", Options.VStr "#ff0000") ]%string "color"
  = Some (Options.VStr "#ff0000").
Proof.
  apply (cli_options_take_precedence sample_config sample_option_dict).
  - apply (bool_decide_unpack _). reflexivity.
  - reflexivity.
  - reflexivity.
  - discriminate.
Defined.

Lemma merge_config_app (config : Options.Config) (option_dict : Options.dict)
    (pre post : list (string * option string)) :
  forall result merged,
    Options.merge_config config option_dict (pre ++ post) result = Ok merged ->
    exists middle,
      Options.merge_config config option_dict pre result = Ok middle /\
      Options.merge_config config option_dict post middle = Ok merged.
Proof.
  induction pre as [|item pre IH]; intros result merged Hrun; simpl in *.
  - eauto.
  - destruct (Options.merge_config_entry config option_dict item result)
      as [result'|e]; [|discriminate]. eauto.
Qed.

Lemma config_to_cli_plain : Forall plain_entry Options.config_to_cli.
Proof.
  unfold Options.config_to_cli.
  repeat (constructor; [split; [discriminate | intros H; first [discriminate H | reflexivity]]|]).
  constructor.
Qed.

Lemma merge_config_entry_preserves (config : Options.Config)
    (option_dict : Options.dict) (item : string * option string)
    (result result' : Options.dict) (k : string) :
  plain_entry item ->
  Options.merge_config_entry config option_dict item result = Ok result' ->
  snd item <> Some k ->
  Options.dict_get result' k = Options.dict_get result k.
Proof.
  destruct item as [ck [k'|]]; intros [Hfields Hformats] Hrun Hk; simpl in *;
    [|now injection Hrun as <-].
  destruct (Options.provided option_dict k'); [now injection Hrun as <-|].
  destruct (String.eqb ck "overlay.enabled" && Options.provided option_dict "overlay");
    [now injection Hrun as <-|].
  destruct (Options.is_None _); [now injection Hrun as <-|].
  assert (Hf : String.eqb ck "overlay.fields" = false) by now apply String.eqb_neq.
  rewrite Hf in Hrun. cbn [andb] in Hrun.
  destruct (String.eqb ck "export.formats") eqn:Ee.
  - apply String.eqb_eq in Ee. specialize (Hformats Ee). injection Hformats as ->.
    destruct (Options.value_truthy _); cbn [andb] in Hrun.
    + destruct (Options.join_value _ _) as [joined|e]; [|discriminate].
      injection Hrun as <-. apply dict_get_set_ne. congruence.
    + simpl in Hrun. injection Hrun as <-. apply dict_get_set_ne. congruence.
  - cbn [andb] in Hrun. destruct (negb (String.eqb k' "")).
    + injection Hrun as <-. apply dict_get_set_ne. congruence.
    + now injection Hrun as <-.
Qed.

Lemma merge_config_preserves (config : Options.Config)
    (option_dict : Options.dict) (table : list (string * option string))
    (k : string) :
  Forall plain_entry table ->
  Some k ∉ map snd table ->
  forall result merged,
    Options.merge_config config option_dict table result = Ok merged ->
    Options.dict_get merged k = Options.dict_get result k.
Proof.
  induction table as [|item table IH]; intros Hplain Hk result merged Hrun;
    simpl in Hrun.
  - now injection Hrun as <-.
  - apply Forall_cons in Hplain as [Hitem Hplain].
    destruct (Options.merge_config_entry config option_dict item result)
      as [result'|e] eqn:E; [|discriminate].
    rewrite (IH Hplain) with (result := result') by
      (auto; intros Hin; apply Hk; now right).
    apply (merge_config_entry_preserves _ _ _ _ _ _ Hitem E).
    intros Heq. apply Hk. rewrite <- Heq. left.
Qed.

Lemma merge_config_entry_sets (config : Options.Config)
    (option_dict : Options.dict) (ck k : string) (result result' : Options.dict)
    (v : Options.value) :
  (ck, Some k) ∈ Options.config_to_cli ->
  Options.provided option_dict k = false ->
  Options.config_get config ("defaults." ++ ck) = v ->
  v <> Options.VNone ->
  (ck = "export.formats"%string -> Options.value_truthy v = false) ->
  Options.merge_config_entry config option_dict (ck, Some k) result = Ok result' ->
  Options.dict_get result' k = Some v.
Proof.
  intros Hin Hprov Hcfg Hv Hformats Hrun. simpl in Hrun.
  rewrite Hprov, Hcfg in Hrun.
  assert (Hplain : plain_entry (ck, Some k)).
  { pose proof config_to_cli_plain as Hall.
    rewrite Forall_forall in Hall. now apply Hall. }
  destruct Hplain as [Hfields _]. simpl in Hfields.
  assert (Hoverlay : String.eqb ck "overlay.enabled"
                     && Options.provided option_dict "overlay" = false).
  { destruct (String.eqb ck "overlay.enabled") eqn:E; [|reflexivity].
    apply String.eqb_eq in E. subst ck.
    assert (k = "overlay"%string) as ->; [|exact Hprov].
    unfold Options.config_to_cli in Hin.
    repeat (apply elem_of_cons in Hin as [Hin | Hin];
            [first [discriminate Hin | now injection Hin]|]).
    inversion Hin. }
  rewrite Hoverlay in Hrun.
  assert (Hnone : Options.is_None v = false) by now destruct v.
  rewrite Hnone in Hrun.
  assert (Hf : String.eqb ck "overlay.fields" = false) by now apply String.eqb_neq.
  rewrite Hf in Hrun. cbn [andb] in Hrun.
  assert (He : String.eqb ck "export.formats" && Options.value_truthy v = false).
  { destruct (String.eqb ck "export.formats") eqn:E; [|reflexivity].
    apply String.eqb_eq in E. now rewrite (Hformats E). }
  rewrite He in Hrun.
  assert (Hk : negb (String.eqb k "") = true).
  { unfold Options.config_to_cli in Hin.
    repeat (apply elem_of_cons in Hin as [Hin | Hin];
            [first [discriminate Hin | now injection Hin as _ ->]|]).
    inversion Hin. }
  rewrite Hk in Hrun. injection Hrun as <-. apply dict_get_set_eq.
Qed.

Lemma provided_false_elems (option_dict : Options.dict) (k : string) :
  NoDup (map fst option_dict) ->
  Options.provided option_dict k = false ->
  forall v, (k, v) ∈ option_dict -> v = Options.VNone.
Proof.
  intros Hnd Hprov v Hin. unfold Options.provided in Hprov.
  rewrite (dict_get_elem _ _ _ Hnd Hin) in Hprov. now destruct v.
Qed.

(** X18. The configuration fills the gaps: for an entry of [config_to_cli]
    whose option the command line left unset (absent or [None]), a
    configured value other than [None] becomes the value of that option in
    the result (a non-empty [export.formats] apart, which is joined into a
    string first). *)
Theorem config_fills_unset_options (config : Options.Config)
    (option_dict merged : Options.dict) (ck k : string) (v : Options.value) :
  NoDup (map fst option_dict) ->
  Options.get_effective_options config option_dict = Ok merged ->
  (ck, Some k) ∈ Options.config_to_cli ->
  Options.provided option_dict k = false ->
  Options.config_get config ("defaults." ++ ck) = v ->
  v <> Options.VNone ->
  (ck = "export.formats"%string -> Options.value_truthy v = false) ->
  Options.dict_get merged k = Some v.
Proof.
  intros Hnd Hrun Hin Hprov Hcfg Hv Hformats.
  unfold Options.get_effective_options in Hrun.
  destruct (Options.merge_config _ _ _ _) as [result|e] eqn:Em; [|discriminate].
  injection Hrun as <-.
  rewrite override_preserves by now apply provided_false_elems.
  pose proof Hin as Hin'.
  apply list_elem_of_split in Hin' as (pre & post & Hsplit).
  rewrite Hsplit in Em.
  apply merge_config_app in Em as (middle & _ & Em).
  cbn [Options.merge_config] in Em.
  destruct (Options.merge_config_entry config option_dict (ck, Some k) middle)
    as [result'|e] eqn:Ee; [|discriminate].
  assert (Hplain : Forall plain_entry post).
  { pose proof config_to_cli_plain as Hall. rewrite Hsplit in Hall.
    apply Forall_app in Hall as [_ Hall]. now apply Forall_cons in Hall as [_ Hall]. }
  assert (Hfresh : Some k ∉ map snd post).
  { assert (Hkeys : NoDup (omap snd Options.config_to_cli))
      by (apply (bool_decide_unpack _); reflexivity).
    rewrite Hsplit, omap_app in Hkeys. simpl in Hkeys.
    apply NoDup_app in Hkeys as (_ & _ & Hkeys).
    apply NoDup_cons in Hkeys as [Hkeys _].
    intros Hmem. apply Hkeys. apply list_elem_of_omap.
    apply list_elem_of_fmap in Hmem as ([ck' ok'] & Heq & Hmem).
    exists (ck', ok'). split; [exact Hmem | now simpl in *]. }
  rewrite (merge_config_preserves _ _ _ _ Hplain Hfresh _ _ Em).
  eapply merge_config_entry_sets; eauto.
Qed.

Lemma config_fills_unset_options_witness :
  Options.dict_get
    [ ("markers", Options.VBool false); ("thickness", Options.VStr "thin");
      ("overlay", Options.VBool true); ("formats", Options.VStr "png,svg");
      ("color", Options.VStr "#ff0000") ]%string "thickness"
  = Some (Options.VStr "thin").
Proof.
  apply (config_fills_unset_options sample_config sample_option_dict _
           "thickness" "thickness").
  - apply (bool_decide_unpack _). reflexivity.
  - reflexivity.
  - left.
  - reflexivity.
  - reflexivity.
  - discriminate.
  - discriminate.
Defined.

Lemma merge_config_ext (config config' : Options.Config)
    (option_dict : Options.dict) (table : list (string * option string)) :
  (forall key, key <> "defaults.overlay.fields"%string ->
               Options.config_get config key = Options.config_get config' key) ->
  Forall plain_entry table ->
  forall result,
    Options.merge_config config option_dict table result
    = Options.merge_config config' option_dict table result.
Proof.
  intros Hsame. induction table as [|[ck ok] table IH]; intros Hplain result;
    [reflexivity|].
  apply Forall_cons in Hplain as [[Hck _] Hplain]. simpl in Hck.
  cbn [Options.merge_config].
  assert (Hentry : Options.merge_config_entry config option_dict (ck, ok) result
                   = Options.merge_config_entry config' option_dict (ck, ok) result).
  { unfold Options.merge_config_entry. rewrite Hsame; [reflexivity|].
    intros Heq.
    change "defaults.overlay.fields"%string
      with ("defaults." ++ "overlay.fields")%string in Heq.
    now apply string_app_inv_head in Heq. }
  rewrite Hentry.
  destruct (Options.merge_config_entry config' option_dict (ck, ok) result);
    [now apply IH | reflexivity].
Qed.

(** X19. The overlay fields of the configuration never reach the options:
    [get_effective_options] does not read [defaults.overlay.fields] (no entry
    of [config_to_cli] has that key, so the branch that would join them is
    never taken); two configurations that differ there only give the same
    result. *)
Theorem configured_overlay_fields_are_ignored (config config' : Options.Config)
    (option_dict : Options.dict) :
  Options.markers_enabled config = Options.markers_enabled config' ->
  (forall key, key <> "defaults.overlay.fields"%string ->
               Options.config_get config key = Options.config_get config' key) ->
  Options.get_effective_options config option_dict
  = Options.get_effective_options config' option_dict.
Proof.
  intros Hmarkers Hsame. unfold Options.get_effective_options.
  rewrite Hmarkers.
  now rewrite (merge_config_ext config config' option_dict _ Hsame
                 config_to_cli_plain).
Qed.

Lemma configured_overlay_fields_are_ignored_witness :
  Options.get_effective_options sample_config sample_option_dict
  = Options.get_effective_options sample_config_with_fields sample_option_dict.
Proof.
  apply (configured_overlay_fields_are_ignored sample_config
           sample_config_with_fields sample_option_dict).
  - reflexivity.
  - intros key Hkey. unfold sample_config_with_fields. simpl.
    apply String.eqb_neq in Hkey. now rewrite Hkey.
Defined.

(** * [init_config] *)

(** X20. [init_config] does not touch an existing file unless [--force] is
    given: it prints the hint, returns 1, and neither creates a directory nor
    writes. *)
Theorem init_config_keeps_existing_file (is_OSError : exn -> bool)
    (config : Setup.config_object) (fs : Setup.filesystem)
    (path : option string) (force : bool) :
  Setup.construct config = None ->
  Setup.path_exists fs (Setup.effective_path config path) = true ->
  force = false ->
  exists t,
    Setup.init_config is_OSError config fs path force = (t, Cli.Returns (Some 1)) /\
    (Cli.call "write" ∉ t) /\ (Cli.call "os.makedirs" ∉ t) /\
    Cli.echo "Use --force to overwrite" ∈ t.
Proof.
  intros Hc Hex ->. unfold Setup.init_config. rewrite Hc.
  fold (Setup.effective_path config path). rewrite Hex.
  eexists. split; [reflexivity|].
  repeat split; try (repeat first [left | right]; fail);
    intros Hin; repeat (apply elem_of_cons in Hin as [Hin | Hin]; [discriminate|]);
    inversion Hin.
Qed.

Lemma init_config_keeps_existing_file_witness :
  exists t,
    Setup.init_config (class_named "OSError") sample_config_object
      sample_filesystem None false = (t, Cli.Returns (Some 1)) /\
    (Cli.call "write" ∉ t).
Proof.
  destruct (init_config_keeps_existing_file (class_named "OSError")
              sample_config_object sample_filesystem None false
              eq_refl eq_refl eq_refl) as (t & Hrun & Hw & _).
  exists t. split; assumption.
Defined.

(** X21. [init_config] returns 0 only after the file has been written, and
    then the file did not exist before or [--force] was given. *)
Theorem init_config_zero_means_written (is_OSError : exn -> bool)
    (config : Setup.config_object) (fs : Setup.filesystem)
    (path : option string) (force : bool) (t : list Cli.event) :
  Setup.init_config is_OSError config fs path force = (t, Cli.Returns (Some 0)) ->
  Setup.write_file fs = None /\
  Cli.call "write" ∈ t /\
  (Setup.path_exists fs (Setup.effective_path config path) = false \/ force = true).
Proof.
  unfold Setup.init_config. fold (Setup.effective_path config path).
  destruct (Setup.construct config) as [e0|]; [discriminate|].
  cbn [Cli.bind Cli.invoke app].
  destruct (Setup.path_exists fs (Setup.effective_path config path)) eqn:Eex,
    force eqn:Ef; cbn [andb negb]; try discriminate.
  all: assert (Hok : Setup.path_exists fs (Setup.effective_path config path) = false
                     \/ force = true) by (rewrite ?Eex, ?Ef; auto).
  all: rewrite ?Eex, ?Ef in Hok.
  all: destruct (negb (Setup.path_exists fs _));
    [destruct (Setup.makedirs fs) as [e1|];
     cbn [Cli.bind Cli.invoke Cli.emit Cli.ret Commands.try_except_when app];
     [destruct (is_OSError e1); cbn [Cli.bind Cli.ret app]; try discriminate|]
    | cbn [Cli.bind Cli.ret app]].
  all: destruct (Setup.generate_sample config) as [s|e2];
    cbn [Cli.bind Cli.ret Cli.raise app]; try discriminate.
  all: destruct (Setup.write_file fs) as [e3|];
    cbn [Cli.bind Cli.invoke Cli.emit Cli.ret Commands.try_except_when app];
    [destruct (is_OSError e3); cbn [Cli.bind Cli.emit Cli.ret app]; discriminate|].
  all: intros [= <-]; repeat split; auto; repeat first [left | right].
Qed.

Lemma init_config_zero_means_written_witness :
  Cli.call "write"
    ∈ fst (Setup.init_config (class_named "OSError") sample_config_object
             sample_filesystem None true).
Proof.
  exact (proj1 (proj2 (init_config_zero_means_written (class_named "OSError")
                         sample_config_object sample_filesystem None true _
                         eq_refl))).
Defined.
